(** * Bedrock adapters: embeddings provider and model discovery cache

    A shallow embedding of
      - [embeddings-bedrock.ts]  (module [Embeddings]) and
      - [src/agents/bedrock-discovery.ts] (module [Discovery]),
    together with the JavaScript string primitives they rely on (module
    [JS]), followed by their properties (modules [JSFacts], [SortFacts],
    [EmbeddingsSpec], [FilterSpec], [FetchSpec], [CacheKeySpec],
    [CacheSpec]) and by runs on concrete data (module [Scenarios]).

    Modelling conventions.
      - A JavaScript string is a [string]: a sequence of code units below
        256.  On these the primitives of module [JS] do what JavaScript
        does: [trim] removes TAB, LF, VT, FF, CR, SPACE and NO-BREAK SPACE,
        and the case mappings cover the letters of ASCII and of Latin-1.
      - [undefined] fields are [option]s.
      - Finite numbers of the configuration are rationals ([Q]); after
        [Math.floor] they are integers ([Z]).  [NaN] and the infinities
        are not represented.
      - A JavaScript [Map] with string keys is a [gmap string _].
      - A thrown exception or a rejected promise is a [Throw]; an async
        function is split at its [await] into the part before and the
        part after, with the state passed explicitly. *)

From Stdlib Require Import String Ascii List ZArith QArith Qround Lia Bool.
From stdpp Require Import gmap strings list pretty sorting.

Local Open Scope string_scope.

(* ===================================================================== *)
(** ** JavaScript string primitives *)
(* ===================================================================== *)

Module JS.

(** White space and line terminators removed by [String.prototype.trim],
    among the code units below 256: TAB, LF, VT, FF, CR, SPACE and
    NO-BREAK SPACE (U+00A0). *)
Definition isWhiteSpace (c : ascii) : bool :=
  let n := nat_of_ascii c in
  ((9 <=? n)%nat && (n <=? 13)%nat) || (n =? 32)%nat || (n =? 160)%nat.

(** The upper-case letters: A to Z, and U+00C0 to U+00DE without the
    multiplication sign U+00D7.  The lower-case form of each is 32 code
    units further. *)
Definition isUpper (c : ascii) : bool :=
  let n := nat_of_ascii c in
  ((65 <=? n)%nat && (n <=? 90)%nat)
  || ((192 <=? n)%nat && (n <=? 222)%nat && negb (n =? 215)%nat).

(** The lower-case letters whose upper-case form is one code unit below
    256: a to z, and U+00E0 to U+00FE without the division sign U+00F7. *)
Definition isLower (c : ascii) : bool :=
  let n := nat_of_ascii c in
  ((97 <=? n)%nat && (n <=? 122)%nat)
  || ((224 <=? n)%nat && (n <=? 254)%nat && negb (n =? 247)%nat).

Definition toLowerChar (c : ascii) : ascii :=
  if isUpper c then ascii_of_nat (nat_of_ascii c + 32) else c.

Definition toUpperChar (c : ascii) : ascii :=
  if isLower c then ascii_of_nat (nat_of_ascii c - 32) else c.

(** The upper-case form of one code unit.  Three lower-case letters have
    none that is one code unit below 256: U+00DF becomes "SS", and U+00B5
    and U+00FF become U+039C and U+0178, which lie outside the strings
    modelled here ([None]). *)
Definition upperUnits (c : ascii) : option string :=
  let n := nat_of_ascii c in
  if (n =? 181)%nat || (n =? 255)%nat then None
  else if (n =? 223)%nat then Some "SS"
  else Some (String (toUpperChar c) EmptyString).

Fixpoint mapChars (f : ascii -> ascii) (s : string) : string :=
  match s with
  | EmptyString => EmptyString
  | String c r => String (f c) (mapChars f r)
  end.

(** [s.toLowerCase()]. *)
Definition toLowerCase (s : string) : string := mapChars toLowerChar s.

(** [s.toUpperCase()]; [None] when the result holds a code unit from 256
    on, and so differs from every string modelled here. *)
Fixpoint toUpperCase (s : string) : option string :=
  match s with
  | EmptyString => Some EmptyString
  | String c r =>
      match upperUnits c, toUpperCase r with
      | Some u, Some v => Some (u ++ v)
      | _, _ => None
      end
  end.

Fixpoint trimStart (s : string) : string :=
  match s with
  | EmptyString => EmptyString
  | String c r => if isWhiteSpace c then trimStart r else s
  end.

Fixpoint trimEnd (s : string) : string :=
  match s with
  | EmptyString => EmptyString
  | String c r =>
      match trimEnd r with
      | EmptyString => if isWhiteSpace c then EmptyString else String c EmptyString
      | r' => String c r'
      end
  end.

(** [s.trim()]. *)
Definition trim (s : string) : string := trimEnd (trimStart s).

(** Truthiness of a string: the empty string is the only falsy one. *)
Definition truthy (s : string) : bool :=
  match s with EmptyString => false | String _ _ => true end.

(** [s.startsWith(p)]. *)
Definition startsWith (p s : string) : bool := String.prefix p s.

(** [s.slice(n)] for a non-negative [n]. *)
Fixpoint slice (n : nat) (s : string) : string :=
  match n, s with
  | O, _ => s
  | S n', EmptyString => EmptyString
  | S n', String _ r => slice n' r
  end.

(** [s.indexOf(p)], with [-1] when [p] does not occur. *)
Fixpoint indexOf (p s : string) : Z :=
  if String.prefix p s then 0%Z
  else match s with
       | EmptyString => (-1)%Z
       | String _ r =>
           let i := indexOf p r in
           if (i <? 0)%Z then (-1)%Z else (i + 1)%Z
       end.

(** [s.includes(p)]. *)
Definition includes (p s : string) : bool := (0 <=? indexOf p s)%Z.

(** [s.split(sep)] for a separator of one character: the list of the
    maximal pieces between separators (never empty). *)
Fixpoint split (sep : ascii) (s : string) : list string :=
  match s with
  | EmptyString => [EmptyString]
  | String c r =>
      if Ascii.eqb c sep then EmptyString :: split sep r
      else match split sep r with
           | [] => [String c EmptyString]
           | p :: ps => String c p :: ps
           end
  end.

(** Spec-level vocabulary for strings. *)

(** All characters are white space (this includes the empty string). *)
Fixpoint isBlank (s : string) : bool :=
  match s with
  | EmptyString => true
  | String c r => isWhiteSpace c && isBlank r
  end.

Fixpoint lastChar (s : string) : option ascii :=
  match s with
  | EmptyString => None
  | String c EmptyString => Some c
  | String _ r => lastChar r
  end.

(** Neither the first nor the last character is white space. *)
Definition noSurroundingWhiteSpace (s : string) : bool :=
  match s with
  | EmptyString => true
  | String c _ =>
      negb (isWhiteSpace c) &&
      match lastChar s with Some d => negb (isWhiteSpace d) | None => true end
  end.

(** Two characters are equal up to the case of a letter. *)
Definition charEqIgnoreCase (c d : ascii) : bool :=
  Ascii.eqb c d
  || (isUpper c && Ascii.eqb (ascii_of_nat (nat_of_ascii c + 32)) d)
  || (isUpper d && Ascii.eqb (ascii_of_nat (nat_of_ascii d + 32)) c).

(** Equality of two strings up to the case of their letters. *)
Fixpoint eqIgnoreCase (a b : string) : bool :=
  match a, b with
  | EmptyString, EmptyString => true
  | String c r, String d q => charEqIgnoreCase c d && eqIgnoreCase r q
  | _, _ => false
  end.

(** The character [c] occurs in [s]. *)
Fixpoint occursIn (c : ascii) (s : string) : bool :=
  match s with
  | EmptyString => false
  | String d r => Ascii.eqb d c || occursIn c r
  end.

(** [p] is the part of [s] before the first [sep]: all of [s] when [sep]
    does not occur in it. *)
Definition isPartBeforeFirst (sep : ascii) (s p : string) : Prop :=
  occursIn sep p = false /\
  exists rest, s = p ++ rest /\ (rest = "" \/ exists r, rest = String sep r).

End JS.

(* ===================================================================== *)
(** ** Results of fallible code *)
(* ===================================================================== *)

(** The errors the modelled code can raise or receive. *)
Inductive Error : Type :=
| SyntaxError                 (* thrown by [JSON.parse] *)
| TypeError                   (* property read on [null], call of [undefined] *)
| MkError (message : string). (* [new Error(message)], remote failures *)

(** A computation either returns a value or throws; a promise either
    fulfils with a value or rejects. *)
Inductive Exc (A : Type) : Type :=
| Ok (a : A)
| Throw (e : Error).
Arguments Ok {A} a.
Arguments Throw {A} e.

Definition bindExc {A B} (m : Exc A) (k : A -> Exc B) : Exc B :=
  match m with
  | Ok a => k a
  | Throw e => Throw e
  end.

Notation "'let!' x ':=' m 'in' k" := (bindExc m (fun x => k))
  (at level 10, x pattern, m at level 100, k at level 200).

(* ===================================================================== *)
(** ** embeddings-bedrock.ts *)
(* ===================================================================== *)

Module Embeddings.
Import JS.

(** The values [JSON.parse] produces. *)
#[warnings="-register-all"] Inductive Json : Type :=
| JNull
| JBool (b : bool)
| JNumber (q : Q)
| JString (s : string)
| JArray (items : list Json)
| JObject (fields : list (string * Json)).

(** A JavaScript value read out of such data: [None] is [undefined]. *)
Definition JsValue : Type := option Json.

(** [v == null]: the value is [undefined] or [null]. *)
Definition isNullish (v : JsValue) : bool :=
  match v with
  | None | Some JNull => true
  | Some _ => false
  end.

(** The own property [name] of an object given by its list of properties
    (the first binding of a name is the property). *)
Fixpoint lookupField (name : string) (fields : list (string * Json)) : JsValue :=
  match fields with
  | [] => None
  | (k, v) :: rest => if String.eqb k name then Some v else lookupField name rest
  end.

(** [v.name] for a value [v] that is not [null], and a [name] that is
    neither an index, nor [length], nor a property of a built-in prototype
    (the code reads [embeddings] and [embedding] only): objects answer with
    their own property, every other value with [undefined]. *)
Definition getField (name : string) (v : Json) : JsValue :=
  match v with
  | JObject fields => lookupField name fields
  | _ => None
  end.

(** [v[0]] for a value [v] that is not [null]. *)
Definition getIndex0 (v : Json) : JsValue :=
  match v with
  | JArray items => head items
  | JString (String c _) => Some (JString (String c EmptyString))
  | JObject fields => lookupField "0" fields
  | _ => None
  end.

(** [o?.[0]] and [o?.name]: [undefined] when [o] is nullish. *)
Definition optIndex0 (o : JsValue) : JsValue :=
  match o with
  | Some v => if isNullish o then None else getIndex0 v
  | None => None
  end.

Definition optField (name : string) (o : JsValue) : JsValue :=
  match o with
  | Some v => if isNullish o then None else getField name v
  | None => None
  end.

(** [a ?? b]. *)
Definition nullishCoalesce (a : JsValue) (b : Json) : Json :=
  match a with
  | Some v => if isNullish a then b else v
  | None => b
  end.

Record Nova2Text := { truncationMode : string; value : string }.

Record Nova2Params := {
  embeddingPurpose : string;
  embeddingDimension : Z;
  text : Nova2Text;
}.

Record Nova2Request := {
  schemaVersion : string;
  taskType : string;
  singleEmbeddingParams : Nova2Params;
}.

Definition buildNova2Request (text : string) (dimension : Z) : Nova2Request :=
  {| schemaVersion := "nova-multimodal-embed-v1";
     taskType := "SINGLE_EMBEDDING";
     singleEmbeddingParams :=
       {| embeddingPurpose := "GENERIC_INDEX";
          embeddingDimension := dimension;
          text := {| truncationMode := "END"; value := text |} |} |}.

(** [payload.embeddings?.[0]?.embedding ?? []].  The first property read
    has no [?.]: it throws a [TypeError] on [null]. *)
Definition parseNova2Response (body : Json) : Exc Json :=
  match body with
  | JNull => Throw TypeError
  | payload =>
      Ok (nullishCoalesce
            (optField "embedding" (optIndex0 (getField "embeddings" payload)))
            (JArray []))
  end.

Record BedrockModelConfig := {
  maxInputChars : Z;
  defaultDimension : Z;
  buildRequest : string -> Z -> Nova2Request;
  parseResponse : Json -> Exc Json;
}.

Definition DEFAULT_BEDROCK_EMBEDDING_MODEL : string :=
  "amazon.nova-2-multimodal-embeddings-v1:0".
Definition DEFAULT_BEDROCK_REGION : string := "us-east-1".

(** The object literal [BEDROCK_MODEL_REGISTRY], by its own properties. *)
Definition BEDROCK_MODEL_REGISTRY (id : string) : option BedrockModelConfig :=
  if String.eqb id "amazon.nova-2-multimodal-embeddings-v1:0" then
    Some {| maxInputChars := 8192;
            defaultDimension := 1024;
            buildRequest := buildNova2Request;
            parseResponse := parseNova2Response |}
  else None.

(** [Object.keys(BEDROCK_MODEL_REGISTRY)]. *)
Definition registryKeys : list string :=
  ["amazon.nova-2-multimodal-embeddings-v1:0"].

(** The properties an object literal inherits from [Object.prototype]:
    eleven functions, and [__proto__], which answers with the prototype
    itself. *)
Definition objectPrototypeProperties : list string :=
  [ "constructor"; "hasOwnProperty"; "isPrototypeOf"; "propertyIsEnumerable";
    "toLocaleString"; "toString"; "valueOf"; "__proto__";
    "__defineGetter__"; "__defineSetter__"; "__lookupGetter__"; "__lookupSetter__" ].

(** The value of a property read on the registry. *)
Inductive RegistryValue : Type :=
| OwnConfig (cfg : BedrockModelConfig)  (* an entry of the literal *)
| InheritedMember                       (* a member of [Object.prototype]: truthy,
                                           without the properties of a config *)
| Undefined.

(** [BEDROCK_MODEL_REGISTRY[modelId]]: the own property, else the inherited
    one, else [undefined]. *)
Definition registryGet (modelId : string) : RegistryValue :=
  match BEDROCK_MODEL_REGISTRY modelId with
  | Some cfg => OwnConfig cfg
  | None =>
      if existsb (String.eqb modelId) objectPrototypeProperties
      then InheritedMember
      else Undefined
  end.

Definition normalizeBedrockModel (model : string) : string :=
  let trimmed := trim model in
  if negb (truthy trimmed) then DEFAULT_BEDROCK_EMBEDDING_MODEL
  else if startsWith "bedrock/" trimmed then slice (String.length "bedrock/") trimmed
  else trimmed.

Record InvokeModelCommand := {
  modelId : string;
  contentType : string;
  accept : string;
  body : Nova2Request;   (* the payload handed to [JSON.stringify] *)
}.

(** The decoded text of a response body, by what [JSON.parse] does with
    it: it throws a [SyntaxError] on text that is not JSON and returns the
    denoted value otherwise. *)
Inductive ResponseText : Type :=
| NotJson (text : string)
| JsonText (v : Json).

Definition JSON_parse (t : ResponseText) : Exc Json :=
  match t with
  | NotJson _ => Throw SyntaxError
  | JsonText v => Ok v
  end.

(** The transport: [runtimeClient.send(command)] followed by
    [new TextDecoder().decode(response.body)]; a rejected send is a
    [Throw]. *)
Definition Transport : Type := InvokeModelCommand -> Exc ResponseText.

(** The closure [embedSingle] of [createBedrockEmbeddingProvider]. *)
Definition embedSingle (runtimeClient : Transport) (modelId : string)
    (cfg : BedrockModelConfig) (text : string) : Exc Json :=
  let body := buildRequest cfg text (defaultDimension cfg) in
  let command := {| modelId := modelId;
                    contentType := "application/json";
                    accept := "application/json";
                    body := body |} in
  let! response := runtimeClient command in
  let! responseBody := JSON_parse response in
  parseResponse cfg responseBody.

(** [Promise.all(texts.map(embedSingle))]: the values in the order of the
    texts when every call fulfils.  When several calls reject,
    [Promise.all] rejects with the error of the call that rejects first in
    time; the model, which has no time, takes the first in the order of
    the texts. *)
Fixpoint embedAll (f : string -> Exc Json) (texts : list string) : Exc (list Json) :=
  match texts with
  | [] => Ok []
  | t :: rest => let! v := f t in let! vs := embedAll f rest in Ok (v :: vs)
  end.

Record EmbeddingProvider := {
  id : string;
  model : string;
  embedQuery : string -> Exc Json;
  embedBatch : list string -> Exc (list Json);
}.

Record BedrockEmbeddingClient := { clientModelId : string; region : string }.

(** [process.env], and the part of the options the factory reads. *)
Definition Env : Type := gmap string string.

Record EmbeddingProviderOptions := {
  optModel : string;
  optProviderRegion : option string;  (* config.models?.providers?.["amazon-bedrock"]?.region *)
}.

(** [process.env.X?.trim()] as a truthy test. *)
Definition envSet (env : Env) (name : string) : bool :=
  match env !! name with
  | Some v => truthy (trim v)
  | None => false
  end.

(** [s] between double quotes. *)
Definition quoted (s : string) : string :=
  String (ascii_of_nat 34) (s ++ String (ascii_of_nat 34) EmptyString).

Definition lineFeed : string := String (ascii_of_nat 10) EmptyString.

(** [items.join(sep)]. *)
Fixpoint join (sep : string) (items : list string) : string :=
  match items with
  | [] => ""
  | [x] => x
  | x :: rest => x ++ sep ++ join sep rest
  end.

Definition missingCredentialsMessage : string :=
  join lineFeed
    [ "No API key found for provider " ++ quoted "bedrock" ++ ".";
      "Set AWS credentials via environment variables (AWS_ACCESS_KEY_ID + AWS_SECRET_ACCESS_KEY),";
      "or AWS_PROFILE, or AWS_BEARER_TOKEN_BEDROCK for SSO." ].

Definition validateCredentials (env : Env) : Exc unit :=
  let hasIamCreds := envSet env "AWS_ACCESS_KEY_ID" && envSet env "AWS_SECRET_ACCESS_KEY" in
  let hasBearer := envSet env "AWS_BEARER_TOKEN_BEDROCK" in
  let hasProfile := envSet env "AWS_PROFILE" in
  if negb hasIamCreds && negb hasBearer && negb hasProfile
  then Throw (MkError missingCredentialsMessage)
  else Ok tt.

(** [a?.trim() || rest]. *)
Definition orElse (a : option string) (rest : string) : string :=
  match a with
  | Some v => if truthy (trim v) then trim v else rest
  | None => rest
  end.

Definition resolveBedrockRegion (env : Env) (options : EmbeddingProviderOptions) : string :=
  orElse (optProviderRegion options)
    (orElse (env !! "AWS_REGION")
       (orElse (env !! "AWS_DEFAULT_REGION") DEFAULT_BEDROCK_REGION)).

Definition unsupportedModelMessage (modelId : string) : string :=
  let supported := join ", " registryKeys in
  "Unsupported Bedrock embedding model: " ++ quoted modelId
    ++ ". Supported models: " ++ supported.

(** The closure [embedSingle] over the destructured [modelConfig].  On a
    member of [Object.prototype] the three destructured properties are
    [undefined], and the call of [buildRequest] throws. *)
Definition embedSingleOf (runtimeClient : Transport) (modelId : string)
    (modelConfig : RegistryValue) (text : string) : Exc Json :=
  match modelConfig with
  | OwnConfig cfg => embedSingle runtimeClient modelId cfg text
  | InheritedMember | Undefined => Throw TypeError
  end.

Definition createBedrockEmbeddingProvider (env : Env)
    (createBedrockRuntimeClient : string -> Transport)
    (options : EmbeddingProviderOptions)
  : Exc (EmbeddingProvider * BedrockEmbeddingClient) :=
  let modelId := normalizeBedrockModel (optModel options) in
  match registryGet modelId with
  | Undefined => Throw (MkError (unsupportedModelMessage modelId))
  | modelConfig =>
      let! _ := validateCredentials env in
      let region := resolveBedrockRegion env options in
      let runtimeClient := createBedrockRuntimeClient region in
      let client := {| clientModelId := modelId; region := region |} in
      let embedSingle := embedSingleOf runtimeClient modelId modelConfig in
      Ok ({| id := "bedrock";
             model := modelId;
             embedQuery := embedSingle;
             embedBatch := embedAll embedSingle |}, client)
  end.

End Embeddings.

(* ===================================================================== *)
(** ** src/agents/bedrock-discovery.ts *)
(* ===================================================================== *)

Module Discovery.
Import JS.

(** *** Arrays and sets *)

(** [new Set(l)] followed by [Array.from]: the elements of [l] in the
    order of their first occurrence. *)
Fixpoint arrayFromSet (seen : list string) (l : list string) : list string :=
  match l with
  | [] => []
  | x :: rest =>
      if existsb (String.eqb x) seen then arrayFromSet seen rest
      else x :: arrayFromSet (x :: seen) rest
  end.

(** [l.toSorted(cmp)] by a comparator given as "[a] may stay before [b]"
    ([cmp(a, b) <= 0]): a stable insertion sort. *)
Fixpoint insertSorted {A} (le : A -> A -> bool) (x : A) (l : list A) : list A :=
  match l with
  | [] => [x]
  | y :: rest => if le x y then x :: y :: rest else y :: insertSorted le x rest
  end.

Fixpoint toSorted {A} (le : A -> A -> bool) (l : list A) : list A :=
  match l with
  | [] => []
  | x :: rest => insertSorted le x (toSorted le rest)
  end.

(** The default order of [toSorted()] on strings: by code units. *)
Definition codeUnitLe (a b : string) : bool := String.leb a b.

(** [arr.includes(x)] on an array of strings. *)
Definition arrayIncludes (x : string) (arr : list string) : bool :=
  existsb (String.eqb x) arr.

(** *** Data *)

Definition DEFAULT_REFRESH_INTERVAL_SECONDS : Z := 3600.
Definition DEFAULT_CONTEXT_WINDOW : Z := 32000.
Definition DEFAULT_MAX_TOKENS : Z := 4096.

Record Cost := { input : Z; output : Z; cacheRead : Z; cacheWrite : Z }.

Definition DEFAULT_COST : Cost :=
  {| input := 0; output := 0; cacheRead := 0; cacheWrite := 0 |}.

Record BedrockDiscoveryConfig := {
  refreshInterval : option Q;
  providerFilter : option (list string);
  defaultContextWindow : option Q;
  defaultMaxTokens : option Q;
}.

(** The fields of a model summary the code reads; [modelLifecycleStatus]
    is [summary.modelLifecycle?.status]. *)
Record BedrockModelSummary := {
  modelId : option string;
  modelName : option string;
  providerName : option string;
  inputModalities : option (list string);
  outputModalities : option (list string);
  responseStreamingSupported : option bool;
  modelLifecycleStatus : option string;
}.

Inductive Modality : Type := TextInput | ImageInput.

Record ModelDefinitionConfig := {
  id : string;
  name : string;
  reasoning : bool;
  inputKinds : list Modality;       (* the field [input] *)
  cost : Cost;
  contextWindow : Z;
  maxTokens : Z;
}.

Record ListFoundationModelsOutput := {
  modelSummaries : option (list BedrockModelSummary);
}.

Record InferenceProfileModel := { modelArn : option string }.

Record InferenceProfileSummary := {
  inferenceProfileId : option string;
  models : option (list InferenceProfileModel);
}.

Record ListInferenceProfilesOutput := {
  inferenceProfileSummaries : option (list InferenceProfileSummary);
  nextToken : option string;
}.

(** What a client answers: the outcome of the one
    [ListFoundationModelsCommand], and the outcomes of the successive
    [ListInferenceProfilesCommand]s in the order they are sent.  When the
    latter list ends while the pagination loop awaits a further page, that
    send never settles. *)
Record BedrockClient := {
  listFoundationModels : Exc ListFoundationModelsOutput;
  listInferenceProfiles : list (Exc ListInferenceProfilesOutput);
}.

(** [a ?? d]. *)
Definition orDefault {A} (a : option A) (d : A) : A :=
  match a with Some v => v | None => d end.

(** *** Pure helpers *)

Definition normalizeProviderFilter (filter : option (list string)) : list string :=
  match filter with
  | None | Some [] => []
  | Some entries =>
      let normalized :=
        arrayFromSet []
          (List.filter (fun entry => (0 <? String.length entry)%nat)
             (List.map (fun entry => toLowerCase (trim entry)) entries)) in
      toSorted codeUnitLe normalized
  end.

Record CacheKeyParams := {
  keyRegion : string;
  keyProviderFilter : list string;
  keyRefreshIntervalSeconds : Z;
  keyDefaultContextWindow : Z;
  keyDefaultMaxTokens : Z;
}.

Definition dquote : string := String (ascii_of_nat 34) EmptyString.
Definition backslash : string := String (ascii_of_nat 92) EmptyString.

Definition hexDigit (n : nat) : ascii :=
  if (n <? 10)%nat then ascii_of_nat (48 + n) else ascii_of_nat (87 + n).

(** The escape of one code unit inside a JSON string. *)
Definition jsonEscapeChar (c : ascii) : string :=
  let n := nat_of_ascii c in
  if (n =? 34)%nat then backslash ++ dquote
  else if (n =? 92)%nat then backslash ++ backslash
  else if (n =? 8)%nat then backslash ++ "b"
  else if (n =? 9)%nat then backslash ++ "t"
  else if (n =? 10)%nat then backslash ++ "n"
  else if (n =? 12)%nat then backslash ++ "f"
  else if (n =? 13)%nat then backslash ++ "r"
  else if (n <? 32)%nat then
    backslash ++ "u00" ++ String (hexDigit (n / 16)) (String (hexDigit (n mod 16)) EmptyString)
  else String c EmptyString.

Fixpoint jsonEscape (s : string) : string :=
  match s with
  | EmptyString => EmptyString
  | String c r => jsonEscapeChar c ++ jsonEscape r
  end.

Definition jsonString (s : string) : string := dquote ++ jsonEscape s ++ dquote.

Fixpoint jsonJoin (items : list string) : string :=
  match items with
  | [] => ""
  | [x] => x
  | x :: rest => x ++ "," ++ jsonJoin rest
  end.

Definition jsonStringArray (l : list string) : string :=
  "[" ++ jsonJoin (List.map jsonString l) ++ "]".

Definition jsonField (name value : string) : string :=
  jsonString name ++ ":" ++ value.

(** [JSON.stringify(params)]: the properties in their order of creation;
    the numbers are integers and print in decimal (as JavaScript prints
    them below 10^21). *)
Definition buildCacheKey (params : CacheKeyParams) : string :=
  "{" ++ jsonJoin
    [ jsonField "region" (jsonString (keyRegion params));
      jsonField "providerFilter" (jsonStringArray (keyProviderFilter params));
      jsonField "refreshIntervalSeconds" (pretty (keyRefreshIntervalSeconds params));
      jsonField "defaultContextWindow" (pretty (keyDefaultContextWindow params));
      jsonField "defaultMaxTokens" (pretty (keyDefaultMaxTokens params)) ] ++ "}".

Definition includesTextModalities (modalities : option (list string)) : bool :=
  existsb (fun entry => String.eqb (toLowerCase entry) "text") (orDefault modalities []).

Definition isActive (summary : BedrockModelSummary) : bool :=
  match modelLifecycleStatus summary with
  | Some status =>
      match toUpperCase status with
      | Some upper => String.eqb upper "ACTIVE"
      | None => false
      end
  | None => false
  end.

Definition modalityEqb (a b : Modality) : bool :=
  match a, b with
  | TextInput, TextInput | ImageInput, ImageInput => true
  | _, _ => false
  end.

(** [mapped.add(m)] on a set kept in insertion order. *)
Definition setAdd (m : Modality) (mapped : list Modality) : list Modality :=
  if existsb (modalityEqb m) mapped then mapped else mapped ++ [m].

Definition mapInputModalities (summary : BedrockModelSummary) : list Modality :=
  let inputs := orDefault (inputModalities summary) [] in
  let mapped :=
    fold_left (fun mapped modality =>
      let lower := toLowerCase modality in
      let mapped := if String.eqb lower "text" then setAdd TextInput mapped else mapped in
      if String.eqb lower "image" then setAdd ImageInput mapped else mapped)
      inputs [] in
  match mapped with
  | [] => setAdd TextInput mapped
  | _ => mapped
  end.

Definition inferReasoningSupport (summary : BedrockModelSummary) : bool :=
  let haystack :=
    toLowerCase (orDefault (modelId summary) "" ++ " " ++ orDefault (modelName summary) "") in
  includes "reasoning" haystack || includes "thinking" haystack.

Definition resolveDefaultContextWindow (config : option BedrockDiscoveryConfig) : Z :=
  let value :=
    match config with
    | Some c => match defaultContextWindow c with
                | Some q => Qfloor q
                | None => DEFAULT_CONTEXT_WINDOW
                end
    | None => DEFAULT_CONTEXT_WINDOW
    end in
  if (0 <? value)%Z then value else DEFAULT_CONTEXT_WINDOW.

Definition resolveDefaultMaxTokens (config : option BedrockDiscoveryConfig) : Z :=
  let value :=
    match config with
    | Some c => match defaultMaxTokens c with
                | Some q => Qfloor q
                | None => DEFAULT_MAX_TOKENS
                end
    | None => DEFAULT_MAX_TOKENS
    end in
  if (0 <? value)%Z then value else DEFAULT_MAX_TOKENS.

Definition matchesProviderFilter (summary : BedrockModelSummary) (filter : list string) : bool :=
  match filter with
  | [] => true
  | _ =>
      let providerName : option string :=
        match providerName summary with
        | Some p => Some p
        | None =>
            match modelId summary with
            | Some mid => head (split "." mid)
            | None => None
            end
        end in
      match providerName with
      | None => false
      | Some p =>
          let normalized := toLowerCase (trim p) in
          if negb (truthy normalized) then false
          else arrayIncludes normalized filter
      end
  end.

(** [!summary.modelId?.trim()]. *)
Definition lacksModelId (summary : BedrockModelSummary) : bool :=
  match modelId summary with
  | Some mid => negb (truthy (trim mid))
  | None => true
  end.

Definition shouldIncludeSummary (summary : BedrockModelSummary) (filter : list string) : bool :=
  if lacksModelId summary then false
  else if negb (matchesProviderFilter summary filter) then false
  else if negb (match responseStreamingSupported summary with
                | Some true => true
                | _ => false
                end) then false
  else if negb (includesTextModalities (outputModalities summary)) then false
  else if negb (isActive summary) then false
  else true.

Record Defaults := { defContextWindow : Z; defMaxTokens : Z }.

(** [summary.modelId?.trim() ?? ""]. *)
Definition baseIdOf (summary : BedrockModelSummary) : string :=
  match modelId summary with
  | Some mid => trim mid
  | None => ""
  end.

Definition toModelDefinition (summary : BedrockModelSummary) (defaults : Defaults)
    (inferenceProfileId : option string) : ModelDefinitionConfig :=
  let baseId := baseIdOf summary in
  let id := orDefault inferenceProfileId baseId in
  {| id := id;
     name := match modelName summary with
             | Some n => if truthy (trim n) then trim n else id
             | None => id
             end;
     reasoning := inferReasoningSupport summary;
     inputKinds := mapInputModalities summary;
     cost := DEFAULT_COST;
     contextWindow := defContextWindow defaults;
     maxTokens := defMaxTokens defaults |}.

(** *** The inference-profile map *)

Definition foundationModelMarker : string := "foundation-model/".

(** The body of [for (const modelRef of profile.models ?? [])]. *)
Definition recordModelRef (profileId : string) (mapping : gmap string string)
    (modelRef : InferenceProfileModel) : gmap string string :=
  let arn := orDefault (modelArn modelRef) "" in
  let idx := indexOf foundationModelMarker arn in
  if (0 <=? idx)%Z then
    let baseId := trim (slice (Z.to_nat idx + String.length foundationModelMarker) arn) in
    if truthy baseId then <[baseId := profileId]> mapping else mapping
  else mapping.

(** The body of [for (const profile of response.inferenceProfileSummaries ?? [])]. *)
Definition recordProfile (mapping : gmap string string)
    (profile : InferenceProfileSummary) : gmap string string :=
  match inferenceProfileId profile with
  | None => mapping
  | Some rawId =>
      let profileId := trim rawId in
      if negb (truthy profileId) then mapping
      else fold_left (recordModelRef profileId) (orDefault (models profile) []) mapping
  end.

Definition recordPage (mapping : gmap string string)
    (response : ListInferenceProfilesOutput) : gmap string string :=
  fold_left recordProfile (orDefault (inferenceProfileSummaries response) []) mapping.

(** [while (nextToken)]. *)
Definition hasNextPage (response : ListInferenceProfilesOutput) : bool :=
  match nextToken response with
  | Some t => truthy t
  | None => false
  end.

(** The [do ... while] loop inside [try]: one iteration per answer.  A
    rejected send leaves the loop through [catch], which keeps [mapping]
    as it is at that point.  [None]: the loop awaits a page that never
    arrives. *)
Fixpoint profilePages (answers : list (Exc ListInferenceProfilesOutput))
    (mapping : gmap string string) : option (gmap string string) :=
  match answers with
  | [] => None
  | Throw _ :: _ => Some mapping
  | Ok response :: rest =>
      let mapping := recordPage mapping response in
      if hasNextPage response then profilePages rest mapping else Some mapping
  end.

Definition buildInferenceProfileMap (client : BedrockClient) : option (gmap string string) :=
  profilePages (listInferenceProfiles client) ∅.

(** *** The discovery fetch *)

(** The host: what the module takes from its environment. *)
Class Host := {
  (** [a.localeCompare(b)]: negative, zero or positive. *)
  localeCompare : string -> string -> Z;
  (** The client used when the caller passes no [clientFactory]. *)
  createProxyAwareBedrockClient : string -> BedrockClient;
}.

Section Fetch.
Context `{Host}.

(** The state of the loop over the summaries: the array [discovered] and
    the set [registeredIds]. *)
Record LoopState := {
  discovered : list ModelDefinitionConfig;
  registeredIds : gset string;
}.

(** One iteration of [for (const summary of response.modelSummaries ?? [])]. *)
Definition visitSummary (providerFilter : list string) (defaults : Defaults)
    (profileMap : gmap string string) (st : LoopState)
    (summary : BedrockModelSummary) : LoopState :=
  if negb (shouldIncludeSummary summary providerFilter) then st
  else
    let baseId := baseIdOf summary in
    let profileId := profileMap !! baseId in
    let def := toModelDefinition summary defaults profileId in
    let st := {| discovered := discovered st ++ [def];
                 registeredIds := registeredIds st ∪ {[ id def ]} |} in
    match profileId with
    | Some pid =>
        if truthy pid && negb (bool_decide (baseId ∈ registeredIds st)) then
          {| discovered := discovered st ++ [toModelDefinition summary defaults None];
             registeredIds := registeredIds st ∪ {[ baseId ]} |}
        else st
    | None => st
    end.

Definition visitSummaries (providerFilter : list string) (defaults : Defaults)
    (profileMap : gmap string string) (summaries : list BedrockModelSummary) : LoopState :=
  fold_left (visitSummary providerFilter defaults profileMap) summaries
    {| discovered := []; registeredIds := ∅ |}.

Definition byName (a b : ModelDefinitionConfig) : bool :=
  (localeCompare (name a) (name b) <=? 0)%Z.

(** What follows [await Promise.all([...])] in the fetch. *)
Definition processListing (providerFilter : list string) (defaults : Defaults)
    (response : ListFoundationModelsOutput) (profileMap : gmap string string)
  : list ModelDefinitionConfig :=
  toSorted byName
    (discovered (visitSummaries providerFilter defaults profileMap
                   (orDefault (modelSummaries response) []))).

(** What the async closure behind [discoveryPromise] captures. *)
Record DiscoveryJob := {
  jobClient : BedrockClient;
  jobProviderFilter : list string;
  jobDefaults : Defaults;
}.

(** How [discoveryPromise] settles: [Promise.all] rejects as soon as the
    listing rejects; otherwise it waits for the profile map, which never
    rejects.  [None]: the promise stays pending for ever. *)
Definition runDiscovery (job : DiscoveryJob) : option (Exc (list ModelDefinitionConfig)) :=
  match listFoundationModels (jobClient job) with
  | Throw e => Some (Throw e)
  | Ok response =>
      match buildInferenceProfileMap (jobClient job) with
      | None => None
      | Some profileMap =>
          Some (Ok (processListing (jobProviderFilter job) (jobDefaults job)
                      response profileMap))
      end
  end.

(** *** The cache and the calls *)

(** A promise is named by its index in the table of promises. *)
Definition PromiseId : Type := nat.

Inductive PromiseState : Type :=
| Pending (job : DiscoveryJob)
| Settled (outcome : Exc (list ModelDefinitionConfig)).

Record BedrockDiscoveryCacheEntry := {
  expiresAt : Z;
  value : option (list ModelDefinitionConfig);
  inFlight : option PromiseId;
}.

(** The module state ([discoveryCache], [hasLoggedBedrockError]), the
    promises created so far, and what the module did to the outside: the
    warnings logged and the number of [ListFoundationModelsCommand]s
    sent. *)
Record State := {
  discoveryCache : gmap string BedrockDiscoveryCacheEntry;
  hasLoggedBedrockError : bool;
  promises : list PromiseState;
  warnings : list Error;
  listingsSent : nat;
}.

Definition initialState : State :=
  {| discoveryCache := ∅; hasLoggedBedrockError := false;
     promises := []; warnings := []; listingsSent := 0 |}.

Definition withCache (st : State) (c : gmap string BedrockDiscoveryCacheEntry) : State :=
  {| discoveryCache := c;
     hasLoggedBedrockError := hasLoggedBedrockError st;
     promises := promises st;
     warnings := warnings st;
     listingsSent := listingsSent st |}.

Definition resetBedrockDiscoveryCacheForTest (st : State) : State :=
  {| discoveryCache := ∅;
     hasLoggedBedrockError := false;
     promises := promises st;
     warnings := warnings st;
     listingsSent := listingsSent st |}.

(** The parameters of a call; [now] is what [params.now?.()] yields, and
    a [clientFactory] is taken to return a client (not to throw). *)
Record Params := {
  region : string;
  config : option BedrockDiscoveryConfig;
  now : option Z;
  clientFactory : option (string -> BedrockClient);
}.

Definition refreshIntervalSecondsOf (params : Params) : Z :=
  Z.max 0
    match config params with
    | Some c => match refreshInterval c with
                | Some q => Qfloor q
                | None => DEFAULT_REFRESH_INTERVAL_SECONDS
                end
    | None => DEFAULT_REFRESH_INTERVAL_SECONDS
    end.

Definition providerFilterOf (params : Params) : list string :=
  normalizeProviderFilter
    match config params with
    | Some c => providerFilter c
    | None => None
    end.

Definition cacheKeyOf (params : Params) : string :=
  buildCacheKey
    {| keyRegion := region params;
       keyProviderFilter := providerFilterOf params;
       keyRefreshIntervalSeconds := refreshIntervalSecondsOf params;
       keyDefaultContextWindow := resolveDefaultContextWindow (config params);
       keyDefaultMaxTokens := resolveDefaultMaxTokens (config params) |}.

(** What the part of [discoverBedrockModels] after [await] needs. *)
Record Continuation := {
  kCacheKey : string;
  kNow : Z;
  kRefreshIntervalSeconds : Z;
}.

(** How a call leaves its synchronous part. *)
Inductive CallResult : Type :=
| Returned (v : list ModelDefinitionConfig)      (* [return cached.value] *)
| ReturnedPromise (p : PromiseId)                (* [return cached.inFlight] *)
| Awaiting (p : PromiseId) (k : Continuation).   (* [await discoveryPromise] *)

(** The cache lookup at the head of the function: the answer it gives,
    if any. *)
Definition lookupCache (st : State) (cacheKey : string) (now : Z) : option CallResult :=
  match discoveryCache st !! cacheKey with
  | Some cached =>
      match value cached with
      | Some v =>
          if (now <? expiresAt cached)%Z then Some (Returned v)
          else match inFlight cached with
               | Some p => Some (ReturnedPromise p)
               | None => None
               end
      | None =>
          match inFlight cached with
          | Some p => Some (ReturnedPromise p)
          | None => None
          end
      end
  | None => None
  end.

(** [discoverBedrockModels] up to its [await]; [dateNow] is what
    [Date.now()] reads at the call. *)
Definition discoverBedrockModels (dateNow : Z) (params : Params) (st : State)
  : State * CallResult :=
  let refreshIntervalSeconds := refreshIntervalSecondsOf params in
  let providerFilter := providerFilterOf params in
  let defaultContextWindow := resolveDefaultContextWindow (config params) in
  let defaultMaxTokens := resolveDefaultMaxTokens (config params) in
  let cacheKey := cacheKeyOf params in
  let now := orDefault (now params) dateNow in
  match (if (0 <? refreshIntervalSeconds)%Z then lookupCache st cacheKey now else None) with
  | Some answer => (st, answer)
  | None =>
      let clientFactory := orDefault (clientFactory params) createProxyAwareBedrockClient in
      let client := clientFactory (region params) in
      let discoveryPromise : PromiseId := length (promises st) in
      let job := {| jobClient := client;
                    jobProviderFilter := providerFilter;
                    jobDefaults := {| defContextWindow := defaultContextWindow;
                                      defMaxTokens := defaultMaxTokens |} |} in
      let cache :=
        if (0 <? refreshIntervalSeconds)%Z then
          <[cacheKey := {| expiresAt := now + refreshIntervalSeconds * 1000;
                           value := None;
                           inFlight := Some discoveryPromise |}]> (discoveryCache st)
        else discoveryCache st in
      ({| discoveryCache := cache;
          hasLoggedBedrockError := hasLoggedBedrockError st;
          promises := promises st ++ [Pending job];
          warnings := warnings st;
          listingsSent := S (listingsSent st) |},
       Awaiting discoveryPromise
         {| kCacheKey := cacheKey; kNow := now;
            kRefreshIntervalSeconds := refreshIntervalSeconds |})
  end.

(** The [try { await ... } catch { ... }] of [discoverBedrockModels], run
    when [discoveryPromise] has settled with [outcome]: the new state and
    the value the call returns. *)
Definition afterAwait (k : Continuation) (outcome : Exc (list ModelDefinitionConfig))
    (st : State) : State * list ModelDefinitionConfig :=
  match outcome with
  | Ok v =>
      (if (0 <? kRefreshIntervalSeconds k)%Z then
         withCache st
           (<[kCacheKey k := {| expiresAt := kNow k + kRefreshIntervalSeconds k * 1000;
                                value := Some v;
                                inFlight := None |}]> (discoveryCache st))
       else st, v)
  | Throw error =>
      let st :=
        if (0 <? kRefreshIntervalSeconds k)%Z
        then withCache st (delete (kCacheKey k) (discoveryCache st))
        else st in
      (if negb (hasLoggedBedrockError st) then
         {| discoveryCache := discoveryCache st;
            hasLoggedBedrockError := true;
            promises := promises st;
            warnings := warnings st ++ [error];
            listingsSent := listingsSent st |}
       else st, [])
  end.

(** The promise [p] settles: its closure has run to its end. *)
Definition settle (p : PromiseId) (st : State)
  : option (State * Exc (list ModelDefinitionConfig)) :=
  match promises st !! p with
  | Some (Pending job) =>
      match runDiscovery job with
      | Some outcome =>
          Some ({| discoveryCache := discoveryCache st;
                   hasLoggedBedrockError := hasLoggedBedrockError st;
                   promises := <[p := Settled outcome]> (promises st);
                   warnings := warnings st;
                   listingsSent := listingsSent st |}, outcome)
      | None => None
      end
  | _ => None
  end.

(** What the promise returned by a call settles to, once the promise the
    call depends on has settled with [outcome] (in state [st]): an async
    function that returns a promise adopts its state, rejection included;
    the awaiting call runs [afterAwait]. *)
Definition callOutcome (r : CallResult) (outcome : Exc (list ModelDefinitionConfig))
    (st : State) : State * Exc (list ModelDefinitionConfig) :=
  match r with
  | Returned v => (st, Ok v)
  | ReturnedPromise _ => (st, outcome)
  | Awaiting _ k => let '(st', v) := afterAwait k outcome st in (st', Ok v)
  end.

End Fetch.

End Discovery.

(* ===================================================================== *)
(** * Properties *)
(* ===================================================================== *)

(** ** Facts on the string primitives *)

Module JSFacts.
Import JS.

Lemma trimEnd_blank w : isBlank w = true -> trimEnd w = "".
Proof.
  induction w as [|c r IH]; simpl; [reflexivity|].
  intros [Hc Hr]%andb_true_iff. rewrite (IH Hr), Hc. reflexivity.
Qed.

Lemma trimStart_blank w : isBlank w = true -> trimStart w = "".
Proof.
  induction w as [|c r IH]; simpl; [reflexivity|].
  intros [Hc Hr]%andb_true_iff. rewrite Hc. auto.
Qed.

Lemma trimEnd_empty_blank s : trimEnd s = "" -> isBlank s = true.
Proof.
  induction s as [|c r IH]; simpl; [reflexivity|].
  destruct (trimEnd r) eqn:E; [|discriminate].
  destruct (isWhiteSpace c); [intros _; simpl; auto | discriminate].
Qed.

Lemma isBlank_trimStart s : isBlank (trimStart s) = isBlank s.
Proof.
  induction s as [|c r IH]; simpl; [reflexivity|].
  destruct (isWhiteSpace c) eqn:E; simpl; [assumption|].
  rewrite E. reflexivity.
Qed.

(** A string trims to the empty string exactly when it is blank. *)
Lemma trim_empty_iff s : trim s = "" <-> isBlank s = true.
Proof.
  unfold trim. split.
  - intros H%trimEnd_empty_blank. rewrite isBlank_trimStart in H. exact H.
  - intros H. rewrite trimStart_blank by exact H. reflexivity.
Qed.

Lemma trimEnd_lastChar s d :
  lastChar s = Some d -> isWhiteSpace d = false -> trimEnd s = s.
Proof.
  induction s as [|c r IH]; simpl; [discriminate|].
  destruct r as [|c' r'].
  - intros [= ->] Hd. simpl. rewrite Hd. reflexivity.
  - intros Hl Hd. rewrite (IH Hl Hd). reflexivity.
Qed.

Lemma lastChar_cons c r : exists d, lastChar (String c r) = Some d.
Proof.
  revert c. induction r as [|y r IH]; intros c.
  - eexists; reflexivity.
  - destruct (IH y) as [d Hd]. exists d. simpl in *. exact Hd.
Qed.

Lemma trim_noSurroundingWhiteSpace s :
  noSurroundingWhiteSpace s = true -> trim s = s.
Proof.
  destruct s as [|c r]; [reflexivity|].
  unfold noSurroundingWhiteSpace, trim.
  intros [Hc Hl]%andb_true_iff.
  apply negb_true_iff in Hc.
  change (trimStart (String c r)) with
    (if isWhiteSpace c then trimStart r else String c r).
  rewrite Hc.
  destruct (lastChar_cons c r) as [d Hd]. rewrite Hd in Hl.
  apply negb_true_iff in Hl. eapply trimEnd_lastChar; eauto.
Qed.

Lemma lastChar_app_cons p c r : exists d, lastChar (p ++ String c r) = Some d /\
  lastChar (String c r) = Some d.
Proof.
  induction p as [|x p IH].
  - simpl. revert c. induction r as [|y r IHr]; intros c.
    + eexists; split; reflexivity.
    + destruct (IHr y) as [d [H1 H2]]. exists d. simpl in *. auto.
  - destruct IH as [d [H1 H2]]. exists d. split; [|exact H2].
    simpl. destruct (p ++ String c r) eqn:E; [|exact H1].
    destruct p; discriminate.
Qed.

Lemma prefix_nil s : String.prefix "" s = true.
Proof. destruct s; reflexivity. Qed.

Lemma truthy_nonempty s : s <> "" -> truthy s = true.
Proof. destruct s; [congruence | reflexivity]. Qed.


(** Every character is one of the 256 listed here, so a property of
    characters can be checked by enumeration. *)
Definition allAscii : list ascii := List.map ascii_of_nat (seq 0 256).

Lemma In_allAscii c : In c allAscii.
Proof.
  rewrite <- (ascii_nat_embedding c). apply in_map, in_seq.
  pose proof (nat_ascii_bounded c). lia.
Qed.

Lemma forall_ascii (P : ascii -> bool) :
  forallb P allAscii = true -> forall c, P c = true.
Proof. intros H c. apply (proj1 (forallb_forall P allAscii) H c), In_allAscii. Qed.

Lemma forall_ascii2 (P : ascii -> ascii -> bool) :
  forallb (fun c => forallb (P c) allAscii) allAscii = true ->
  forall c d, P c d = true.
Proof.
  intros H c d.
  apply (forall_ascii (P c)). apply (forall_ascii (fun c => forallb (P c) allAscii) H).
Qed.

Lemma charEqIgnoreCase_lower c d :
  charEqIgnoreCase c d = Ascii.eqb (toLowerChar c) (toLowerChar d).
Proof.
  apply Bool.eqb_prop.
  apply (forall_ascii2 (fun c d =>
    Bool.eqb (charEqIgnoreCase c d) (Ascii.eqb (toLowerChar c) (toLowerChar d)))).
  vm_compute. reflexivity.
Qed.

(** Comparing after [toLowerCase] is comparing up to case. *)
Lemma eqIgnoreCase_lower a b :
  eqIgnoreCase a b = String.eqb (toLowerCase a) (toLowerCase b).
Proof.
  revert b. induction a as [|c r IH]; intros [|d q]; simpl; try reflexivity.
  rewrite IH, charEqIgnoreCase_lower. reflexivity.
Qed.

Lemma append_cons c a b : (String c a ++ b)%string = String c (a ++ b).
Proof. reflexivity. Qed.




Lemma isWhiteSpace_lower c : isWhiteSpace (toLowerChar c) = isWhiteSpace c.
Proof.
  apply Bool.eqb_prop.
  apply (forall_ascii (fun c => Bool.eqb (isWhiteSpace (toLowerChar c)) (isWhiteSpace c))).
  vm_compute. reflexivity.
Qed.

(** The first piece of [split] is the part before the first separator. *)
Lemma split_head sep s :
  exists p, head (split sep s) = Some p /\ isPartBeforeFirst sep s p.
Proof.
  induction s as [|c r (p & Hp & Hno & rest & Hs & Hrest)]; simpl.
  - exists "". split; [reflexivity|]. split; [reflexivity|].
    exists "". split; [reflexivity | left; reflexivity].
  - destruct (Ascii.eqb c sep) eqn:E.
    + apply Ascii.eqb_eq in E. subst c.
      exists "". split; [reflexivity|]. split; [reflexivity|].
      exists (String sep r). split; [reflexivity | right; eauto].
    + destruct (split sep r) as [|p' ps]; [discriminate|].
      injection Hp as ->.
      exists (String c p). split; [reflexivity|]. split.
      * simpl. rewrite E. exact Hno.
      * exists rest. split; [rewrite Hs; reflexivity | exact Hrest].
Qed.

Lemma isPartBeforeFirst_unique sep s p q :
  isPartBeforeFirst sep s p -> isPartBeforeFirst sep s q -> p = q.
Proof.
  intros (Hp & rp & Hsp & Hrp) (Hq & rq & Hsq & Hrq). subst s.
  revert q Hq Hsq. induction p as [|c p IH]; intros [|d q] Hq Hsq; simpl in *.
  - reflexivity.
  - exfalso. apply orb_false_iff in Hq as [Hd Hq].
    destruct Hrp as [->|[r ->]]; [discriminate|].
    injection Hsq as -> _. rewrite Ascii.eqb_refl in Hd. discriminate.
  - exfalso. apply orb_false_iff in Hp as [Hc Hp].
    destruct Hrq as [->|[r ->]]; [discriminate|].
    injection Hsq as -> _. rewrite Ascii.eqb_refl in Hc. discriminate.
  - apply orb_false_iff in Hp as [Hc Hp]. apply orb_false_iff in Hq as [Hd Hq].
    injection Hsq as -> Hsq. f_equal. apply IH; assumption.
Qed.



Lemma trimStart_app_blank w s : isBlank w = true -> trimStart (w ++ s) = trimStart s.
Proof.
  induction w as [|c w IH]; [reflexivity|]. simpl isBlank.
  intros [Hc Hw]%andb_true_iff. rewrite append_cons. simpl. rewrite Hc. auto.
Qed.

Lemma trimEnd_app_blank s w : isBlank w = true -> trimEnd (s ++ w) = trimEnd s.
Proof.
  intros Hw. induction s as [|c s IH].
  - simpl. apply trimEnd_blank, Hw.
  - rewrite append_cons. simpl. rewrite IH. reflexivity.
Qed.

Lemma trim_app_blank s w : isBlank w = true -> trim (s ++ w) = trim s.
Proof.
  intros Hw. unfold trim. induction s as [|c s IH].
  - simpl. rewrite trimStart_blank by exact Hw. reflexivity.
  - rewrite append_cons. simpl. destruct (isWhiteSpace c); [exact IH|].
    rewrite <- append_cons. apply trimEnd_app_blank, Hw.
Qed.

(** White space around a string does not change what it trims to. *)
Lemma trim_padded w1 s w2 :
  isBlank w1 = true -> isBlank w2 = true -> trim (w1 ++ s ++ w2) = trim s.
Proof.
  intros H1 H2. unfold trim at 1. rewrite trimStart_app_blank by exact H1.
  apply trim_app_blank, H2.
Qed.

Lemma trimStart_toLowerCase s : trimStart (toLowerCase s) = toLowerCase (trimStart s).
Proof.
  unfold toLowerCase. induction s as [|c s IH]; simpl; [reflexivity|].
  rewrite isWhiteSpace_lower. destruct (isWhiteSpace c); [exact IH | reflexivity].
Qed.

Lemma trimEnd_toLowerCase s : trimEnd (toLowerCase s) = toLowerCase (trimEnd s).
Proof.
  unfold toLowerCase. induction s as [|c s IH]; simpl; [reflexivity|].
  rewrite IH, isWhiteSpace_lower.
  destruct (trimEnd s); simpl; [destruct (isWhiteSpace c)|]; reflexivity.
Qed.

Lemma trim_toLowerCase s : trim (toLowerCase s) = toLowerCase (trim s).
Proof. unfold trim. rewrite trimStart_toLowerCase, trimEnd_toLowerCase. reflexivity. Qed.

(** Strings equal up to case normalise to the same entry. *)
Lemma eqIgnoreCase_normalized a b :
  eqIgnoreCase a b = true -> toLowerCase (trim a) = toLowerCase (trim b).
Proof.
  rewrite eqIgnoreCase_lower. intros E%String.eqb_eq.
  rewrite <- !trim_toLowerCase, E. reflexivity.
Qed.

End JSFacts.

(** ** The embeddings provider *)

Module EmbeddingsSpec.
Import JS JSFacts Embeddings.

(** The response holds the value [a] at [embeddings[0].embedding]: each
    step of the path exists and is not [null]. *)
Definition hasEmbedding (v a : Json) : Prop :=
  exists e x,
    getField "embeddings" v = Some e /\ e <> JNull /\
    getIndex0 e = Some x /\ x <> JNull /\
    getField "embedding" x = Some a /\ a <> JNull.

Lemma isNullish_false (v : Json) : v <> JNull -> isNullish (Some v) = false.
Proof. destruct v; simpl; congruence. Qed.

Lemma isNullish_cases (o : JsValue) :
  (isNullish o = true /\ (o = None \/ o = Some JNull)) \/
  (exists v, o = Some v /\ v <> JNull /\ isNullish o = false).
Proof.
  destruct o as [v|]; [|left; auto].
  destruct v; simpl; try (right; eexists; repeat split; congruence).
  left; auto.
Qed.

Lemma parseNova2Response_nonnull v :
  v <> JNull ->
  parseNova2Response v =
  Ok (nullishCoalesce
        (optField "embedding" (optIndex0 (getField "embeddings" v)))
        (JArray [])).
Proof. destruct v; try reflexivity; congruence. Qed.

(** The parser on a payload that is not [null]: the value at the path, or
    the empty array when there is none. *)
Lemma parseNova2Response_found v a :
  v <> JNull -> hasEmbedding v a -> parseNova2Response v = Ok a.
Proof.
  intros Hv (e & x & He & Hen & Hx & Hxn & Ha & Han).
  rewrite (parseNova2Response_nonnull v Hv).
  rewrite He. unfold optIndex0. rewrite (isNullish_false e Hen), Hx.
  unfold optField. rewrite (isNullish_false x Hxn), Ha.
  unfold nullishCoalesce. rewrite (isNullish_false a Han). reflexivity.
Qed.

Lemma parseNova2Response_absent v :
  v <> JNull -> (forall a, ~ hasEmbedding v a) -> parseNova2Response v = Ok (JArray []).
Proof.
  intros Hv Hno.
  rewrite (parseNova2Response_nonnull v Hv).
  f_equal.
  destruct (isNullish_cases (getField "embeddings" v)) as [[_ [E|E]]|(e & E & Hen & _)];
    rewrite E; try reflexivity.
  unfold optIndex0. rewrite (isNullish_false e Hen).
  destruct (isNullish_cases (getIndex0 e)) as [[_ [X|X]]|(x & X & Hxn & _)];
    rewrite X; try reflexivity.
  unfold optField. rewrite (isNullish_false x Hxn).
  destruct (isNullish_cases (getField "embedding" x)) as [[_ [A|A]]|(a & A & Han & _)];
    rewrite A; try reflexivity.
  exfalso. apply (Hno a). exists e, x. repeat split; assumption.
Qed.

(** C1 (as amended).  When the remote call answers with a body that is
    JSON text for a value other than [null], [embedQuery] returns without
    throwing: it returns the value found at [embeddings[0].embedding], and
    the empty vector when a step of that path is missing or [null].  A body
    that is not JSON text makes [embedQuery] fail with the parser's
    [SyntaxError]. *)
Theorem C1_embedQuery_response_handling
    (runtimeClient : Transport) (modelId : string) (cfg : BedrockModelConfig)
    (text : string) (response : ResponseText) :
  BEDROCK_MODEL_REGISTRY modelId = Some cfg ->
  (forall command, runtimeClient command = Ok response) ->
  match response with
  | NotJson _ => embedSingle runtimeClient modelId cfg text = Throw SyntaxError
  | JsonText v =>
      v <> JNull ->
      (forall a, hasEmbedding v a ->
                 embedSingle runtimeClient modelId cfg text = Ok a) /\
      ((forall a, ~ hasEmbedding v a) ->
       embedSingle runtimeClient modelId cfg text = Ok (JArray []))
  end.
Proof.
  intros Hreg Hsend.
  unfold BEDROCK_MODEL_REGISTRY in Hreg.
  destruct (String.eqb modelId _); [|discriminate].
  injection Hreg as <-.
  unfold embedSingle. rewrite Hsend. simpl.
  destruct response as [t|v]; simpl; [reflexivity|].
  intros Hv. split.
  - intros a Ha. apply parseNova2Response_found; assumption.
  - intros Hno. apply parseNova2Response_absent; assumption.
Qed.

Definition sampleEnv : Env := {[ "AWS_PROFILE" := "dev" ]}.

Definition sampleOptions : EmbeddingProviderOptions :=
  {| optModel := ""; optProviderRegion := None |}.

Definition sampleEmbedding : Json :=
  JArray [JNumber (1 # 10); JNumber (2 # 10); JNumber (3 # 10)].

Definition sampleBody : Json :=
  JObject [("embeddings",
            JArray [JObject [("embeddingType", JString "TEXT");
                             ("embedding", sampleEmbedding)]])].

Lemma C1_embedQuery_response_handling_witness :
  embedSingle (fun _ => Ok (JsonText sampleBody)) DEFAULT_BEDROCK_EMBEDDING_MODEL
    {| maxInputChars := 8192; defaultDimension := 1024;
       buildRequest := buildNova2Request; parseResponse := parseNova2Response |}
    "hello" = Ok sampleEmbedding.
Proof.
  refine (proj1 (C1_embedQuery_response_handling
            (fun _ => Ok (JsonText sampleBody)) DEFAULT_BEDROCK_EMBEDDING_MODEL _
            "hello" (JsonText sampleBody) eq_refl (fun _ => eq_refl) _)
          sampleEmbedding _).
  - discriminate.
  - exists (JArray [JObject [("embeddingType", JString "TEXT");
                             ("embedding", sampleEmbedding)]]),
           (JObject [("embeddingType", JString "TEXT");
                     ("embedding", sampleEmbedding)]).
    repeat split; try reflexivity; discriminate.
Defined.

(** C1 as stated fails: a body that is not JSON text makes [embedQuery]
    throw, on a provider obtained from the factory. *)
Lemma C1_counterexample_unparsable_body :
  ~ (forall response : ResponseText,
       exists provider client vector,
         createBedrockEmbeddingProvider sampleEnv (fun _ _ => Ok response) sampleOptions
           = Ok (provider, client) /\
         embedQuery provider "hello" = Ok vector).
Proof.
  intros H. destruct (H (NotJson "<html>")) as (p & c & r & Hp & Hq).
  vm_compute in Hp. injection Hp as <- <-. vm_compute in Hq. discriminate.
Qed.

(** The same on the JSON text [null]: the first property read throws. *)
Example embedQuery_null_body :
  embedSingle (fun _ => Ok (JsonText JNull)) DEFAULT_BEDROCK_EMBEDDING_MODEL
    {| maxInputChars := 8192; defaultDimension := 1024;
       buildRequest := buildNova2Request; parseResponse := parseNova2Response |}
    "hello" = Throw TypeError.
Proof. reflexivity. Qed.

(** An [embedding] that is present but is not an array is returned as it
    is. *)
Example embedQuery_non_array_embedding :
  parseNova2Response
    (JObject [("embeddings", JArray [JObject [("embedding", JString "oops")]])])
  = Ok (JString "oops").
Proof. reflexivity. Qed.

(** C8 (as amended).  For every non-empty [X] without surrounding white
    space and without the prefix, both ["bedrock/" ++ X] and [X] normalise
    to [X]; a blank string normalises to the default model id. *)
Theorem C8_normalizeBedrockModel (X blank : string) :
  X <> "" ->
  noSurroundingWhiteSpace X = true ->
  startsWith "bedrock/" X = false ->
  isBlank blank = true ->
  normalizeBedrockModel ("bedrock/" ++ X) = X /\
  normalizeBedrockModel X = X /\
  normalizeBedrockModel blank = DEFAULT_BEDROCK_EMBEDDING_MODEL.
Proof.
  intros Hne Hws Hpre Hblank. repeat split.
  - unfold normalizeBedrockModel.
    rewrite trim_noSurroundingWhiteSpace.
    + simpl. rewrite prefix_nil. reflexivity.
    + destruct X as [|c r]; [congruence|].
      unfold noSurroundingWhiteSpace in *.
      apply andb_true_iff in Hws as [_ Hl].
      destruct (lastChar_app_cons "bedrock/" c r) as [d [H1 H2]].
      rewrite H2 in Hl.
      change (match lastChar ("bedrock/" ++ String c r) with
              | Some d => negb (isWhiteSpace d) | None => true end = true).
      rewrite H1. exact Hl.
  - unfold normalizeBedrockModel.
    rewrite trim_noSurroundingWhiteSpace by exact Hws.
    rewrite truthy_nonempty by exact Hne. simpl negb. cbv iota.
    rewrite Hpre. reflexivity.
  - unfold normalizeBedrockModel.
    apply trim_empty_iff in Hblank. rewrite Hblank. reflexivity.
Qed.

Lemma C8_normalizeBedrockModel_witness :
  normalizeBedrockModel ("bedrock/" ++ "amazon.nova-2-multimodal-embeddings-v1:0")
    = "amazon.nova-2-multimodal-embeddings-v1:0" /\
  normalizeBedrockModel "amazon.nova-2-multimodal-embeddings-v1:0"
    = "amazon.nova-2-multimodal-embeddings-v1:0" /\
  normalizeBedrockModel "  " = DEFAULT_BEDROCK_EMBEDDING_MODEL.
Proof.
  apply (C8_normalizeBedrockModel "amazon.nova-2-multimodal-embeddings-v1:0" "  ");
    [discriminate | reflexivity | reflexivity | reflexivity].
Defined.

(** C8 as stated fails on an [X] with surrounding white space. *)
Lemma C8_counterexample_untrimmed :
  ~ (forall X : string,
       X <> "" -> startsWith "bedrock/" X = false ->
       normalizeBedrockModel ("bedrock/" ++ X) = X /\ normalizeBedrockModel X = X).
Proof.
  intros H. destruct (H " a") as [_ H2]; [discriminate | reflexivity |].
  vm_compute in H2. discriminate.
Qed.

End EmbeddingsSpec.

(** ** Facts on sorting *)

Module SortFacts.
Import Discovery.

Section Sorting.
Context {A : Type} (le : A -> A -> bool).
Hypothesis le_total : forall a b, le a b = true \/ le b a = true.

Let R (a b : A) : Prop := le a b = true.

Lemma insertSorted_Permutation x l : insertSorted le x l ≡ₚ x :: l.
Proof.
  induction l as [|y l IH]; simpl; [reflexivity|].
  destruct (le x y); [reflexivity|].
  rewrite IH. apply Permutation_swap.
Qed.

Lemma toSorted_Permutation l : toSorted le l ≡ₚ l.
Proof.
  induction l as [|x l IH]; simpl; [reflexivity|].
  rewrite insertSorted_Permutation, IH. reflexivity.
Qed.

Lemma insertSorted_HdRel a x l :
  R a x -> HdRel R a l -> HdRel R a (insertSorted le x l).
Proof.
  intros Hax Hal. destruct l as [|y l]; simpl.
  - constructor. exact Hax.
  - destruct (le x y); constructor; [exact Hax|].
    inversion Hal; assumption.
Qed.

Lemma insertSorted_Sorted x l : Sorted R l -> Sorted R (insertSorted le x l).
Proof.
  induction 1 as [|y l Hl IH Hy]; simpl.
  - repeat constructor.
  - destruct (le x y) eqn:E.
    + constructor; [constructor; assumption|]. constructor. exact E.
    + constructor; [exact IH|].
      apply insertSorted_HdRel; [|exact Hy].
      destruct (le_total x y) as [F|F]; [congruence | exact F].
Qed.

Lemma toSorted_Sorted l : Sorted R (toSorted le l).
Proof.
  induction l as [|x l IH]; simpl; [constructor|].
  apply insertSorted_Sorted, IH.
Qed.

End Sorting.

End SortFacts.

(** ** Model discovery: filtering *)

Module FilterSpec.
Import JS JSFacts Discovery.

Lemma arrayIncludes_In x arr : arrayIncludes x arr = true <-> In x arr.
Proof.
  unfold arrayIncludes. rewrite existsb_exists. split.
  - intros (y & Hy & E). apply String.eqb_eq in E. subst. exact Hy.
  - intros Hx. exists x. split; [exact Hx | apply String.eqb_refl].
Qed.

Lemma truthy_true_iff s : truthy s = true <-> s <> "".
Proof. destruct s; simpl; split; congruence. Qed.

Lemma isBlank_lower_trim p : toLowerCase (trim p) = "" <-> isBlank p = true.
Proof.
  rewrite <- trim_empty_iff. unfold toLowerCase.
  destruct (trim p); simpl; split; congruence.
Qed.

(** C9.  Under a non-empty filter, a summary without provider name is
    matched through the part of its model id before the first ["."]: it
    passes exactly when that part, trimmed and lower-cased, is not empty
    and is an entry of the filter.  Without a model id, or with a blank
    part before the first ["."], it fails whatever the filter. *)
Theorem C9_matchesProviderFilter_fallback
    (summary : BedrockModelSummary) (filter : list string) :
  filter <> [] ->
  providerName summary = None ->
  (forall mid fallback,
      modelId summary = Some mid ->
      isPartBeforeFirst "." mid fallback ->
      (matchesProviderFilter summary filter = true <->
       toLowerCase (trim fallback) <> "" /\ In (toLowerCase (trim fallback)) filter) /\
      (isBlank fallback = true -> matchesProviderFilter summary filter = false)) /\
  (modelId summary = None -> matchesProviderFilter summary filter = false).
Proof.
  intros Hf Hp. unfold matchesProviderFilter. rewrite Hp.
  destruct filter as [|f0 fs]; [congruence|]. split.
  - intros mid fallback Hmid Hpart. rewrite Hmid.
    destruct (split_head "." mid) as (p & Hhead & Hp').
    rewrite Hhead.
    rewrite (isPartBeforeFirst_unique _ _ _ _ Hpart Hp'). clear Hpart.
    split.
    + destruct (truthy (toLowerCase (trim p))) eqn:T; cbn [negb].
      * rewrite arrayIncludes_In. apply truthy_true_iff in T. tauto.
      * split; [discriminate|]. intros [Hne _].
        apply truthy_true_iff in Hne. congruence.
    + intros Hb. apply isBlank_lower_trim in Hb. rewrite Hb. reflexivity.
  - intros ->. reflexivity.
Qed.

Definition anthropicSummary : BedrockModelSummary :=
  {| modelId := Some "Anthropic.claude-3-7-sonnet-20250219-v1:0";
     modelName := Some "Claude 3.7 Sonnet";
     providerName := None;
     inputModalities := Some ["TEXT"; "IMAGE"];
     outputModalities := Some ["TEXT"];
     responseStreamingSupported := Some true;
     modelLifecycleStatus := Some "ACTIVE" |}.

Lemma C9_matchesProviderFilter_fallback_witness :
  matchesProviderFilter anthropicSummary ["amazon"; "anthropic"] = true.
Proof.
  refine (proj2 (proj1 (proj1 (C9_matchesProviderFilter_fallback
            anthropicSummary ["amazon"; "anthropic"] _ eq_refl)
            "Anthropic.claude-3-7-sonnet-20250219-v1:0" "Anthropic" eq_refl _)) _).
  - discriminate.
  - split; [reflexivity|].
    exists ".claude-3-7-sonnet-20250219-v1:0". split; [reflexivity | right; eauto].
  - split; [discriminate | right; left; reflexivity].
Defined.

(** The conditions of the specification, in its own words. *)













End FilterSpec.

(** ** Model discovery: the fetch *)

Module FetchSpec.
Import JS JSFacts SortFacts Discovery FilterSpec.

Lemma fold_left_invariant {A B} (P : A -> Prop) (f : A -> B -> A) (l : list B) (a : A) :
  (forall a x, P a -> P (f a x)) -> P a -> P (fold_left f l a).
Proof.
  intros Hstep. revert a. induction l as [|x l IH]; simpl; auto.
Qed.

(** *** The inference-profile map *)

(** Every profile id recorded in the map is a non-empty string. *)
Definition profileIdsNonEmpty (m : gmap string string) : Prop :=
  forall k v, m !! k = Some v -> v <> "".

Lemma recordModelRef_nonEmpty profileId m modelRef :
  profileId <> "" -> profileIdsNonEmpty m ->
  profileIdsNonEmpty (recordModelRef profileId m modelRef).
Proof.
  intros Hp Hm. unfold recordModelRef.
  destruct (0 <=? _)%Z; [|exact Hm].
  destruct (truthy _); [|exact Hm].
  intros k v. rewrite lookup_insert. case_decide.
  - intros [= <-]. exact Hp.
  - apply Hm.
Qed.

Lemma recordProfile_nonEmpty m profile :
  profileIdsNonEmpty m -> profileIdsNonEmpty (recordProfile m profile).
Proof.
  intros Hm. unfold recordProfile.
  destruct (inferenceProfileId profile) as [rawId|]; [|exact Hm].
  destruct (truthy (trim rawId)) eqn:T; simpl; [|exact Hm].
  apply fold_left_invariant; [|exact Hm].
  intros a x Ha. apply recordModelRef_nonEmpty; [|exact Ha].
  apply truthy_true_iff. exact T.
Qed.

Lemma recordPage_nonEmpty m response :
  profileIdsNonEmpty m -> profileIdsNonEmpty (recordPage m response).
Proof.
  intros Hm. unfold recordPage. apply fold_left_invariant; [|exact Hm].
  intros a x. apply recordProfile_nonEmpty.
Qed.

Lemma profilePages_nonEmpty answers m m' :
  profilePages answers m = Some m' -> profileIdsNonEmpty m -> profileIdsNonEmpty m'.
Proof.
  revert m. induction answers as [|[response|e] rest IH]; simpl; intros m.
  - discriminate.
  - destruct (hasNextPage response).
    + intros Hr Hm. eapply IH; [exact Hr|]. apply recordPage_nonEmpty, Hm.
    + intros [= <-] Hm. apply recordPage_nonEmpty, Hm.
  - intros [= <-]. auto.
Qed.

Lemma buildInferenceProfileMap_nonEmpty client m :
  buildInferenceProfileMap client = Some m -> profileIdsNonEmpty m.
Proof.
  intros Hb. eapply profilePages_nonEmpty; [exact Hb|]. intros k v. rewrite lookup_empty. discriminate.
Qed.

(** The pages received before a failure stay recorded. *)
Lemma profilePages_failure pages e rest m :
  Forall (fun page => hasNextPage page = true) pages ->
  profilePages (List.map Ok pages ++ Throw e :: rest) m
  = Some (fold_left recordPage pages m).
Proof.
  intros Hall. revert m. induction Hall as [|page pages Hp _ IH]; intros m; simpl.
  - reflexivity.
  - rewrite Hp. apply IH.
Qed.

(** *** The loop over the summaries *)

(** The ids of a list of definitions, as a set. *)
Definition idsOf (l : list ModelDefinitionConfig) : gset string :=
  list_to_set (id <$> l).

Lemma idsOf_app l1 l2 : idsOf (l1 ++ l2) = idsOf l1 ∪ idsOf l2.
Proof. unfold idsOf. rewrite fmap_app. apply list_to_set_app_L. Qed.

Lemma elem_of_idsOf x l : x ∈ idsOf l <-> exists d, In d l /\ id d = x.
Proof.
  unfold idsOf. rewrite elem_of_list_to_set, list_elem_of_fmap.
  split; intros (d & H1 & H2).
  - exists d. split; [apply list_elem_of_In; exact H2 | congruence].
  - exists d. split; [congruence | apply list_elem_of_In; exact H1].
Qed.

(** What one included summary appends to [discovered], given the ids
    registered so far. *)
Definition emitted (defaults : Defaults) (profileMap : gmap string string)
    (registered : gset string) (summary : BedrockModelSummary)
  : list ModelDefinitionConfig :=
  match profileMap !! baseIdOf summary with
  | Some pid =>
      toModelDefinition summary defaults (Some pid) ::
      (if truthy pid && negb (bool_decide (baseIdOf summary ∈ registered ∪ {[ pid ]}))
       then [toModelDefinition summary defaults None] else [])
  | None => [toModelDefinition summary defaults None]
  end.

Lemma visitSummary_excluded filter defaults profileMap st summary :
  shouldIncludeSummary summary filter = false ->
  visitSummary filter defaults profileMap st summary = st.
Proof. intros Hx. unfold visitSummary. rewrite Hx. reflexivity. Qed.

Lemma visitSummary_included filter defaults profileMap st summary :
  shouldIncludeSummary summary filter = true ->
  discovered (visitSummary filter defaults profileMap st summary)
    = (discovered st ++ emitted defaults profileMap (registeredIds st) summary)%list /\
  registeredIds (visitSummary filter defaults profileMap st summary)
    = registeredIds st ∪ idsOf (emitted defaults profileMap (registeredIds st) summary).
Proof.
  intros Hin. unfold visitSummary, emitted. rewrite Hin. cbn [negb].
  destruct (profileMap !! baseIdOf summary) as [pid|]; cbn [discovered registeredIds].
  - change (id (toModelDefinition summary defaults (Some pid))) with pid.
    destruct (truthy pid && _); cbn [discovered registeredIds].
    + split; [rewrite <- app_assoc; reflexivity|].
      unfold idsOf. simpl. rewrite (right_id_L ∅ (∪)), (assoc_L (∪)). reflexivity.
    + split; [reflexivity|]. unfold idsOf. simpl. rewrite (right_id_L ∅ (∪)). reflexivity.
  - split; [reflexivity|]. unfold idsOf. simpl. rewrite (right_id_L ∅ (∪)). reflexivity.
Qed.

(** [registeredIds] is the set of the ids emitted so far. *)
Lemma visitSummaries_registeredIds filter defaults profileMap summaries :
  registeredIds (visitSummaries filter defaults profileMap summaries)
  = idsOf (discovered (visitSummaries filter defaults profileMap summaries)).
Proof.
  unfold visitSummaries.
  apply (fold_left_invariant (fun st => registeredIds st = idsOf (discovered st))).
  - intros st summary Hst.
    destruct (shouldIncludeSummary summary filter) eqn:E.
    + destruct (visitSummary_included filter defaults profileMap st summary E) as [-> ->].
      rewrite idsOf_app, Hst. reflexivity.
    + rewrite visitSummary_excluded by exact E. exact Hst.
  - reflexivity.
Qed.

Lemma visitSummaries_snoc filter defaults profileMap earlier summary :
  visitSummaries filter defaults profileMap (earlier ++ [summary])
  = visitSummary filter defaults profileMap
      (visitSummaries filter defaults profileMap earlier) summary.
Proof. unfold visitSummaries. rewrite fold_left_app. reflexivity. Qed.



Section WithHost.
Context `{Host}.

(** Sorting by name reorders the definitions and nothing else. *)
Lemma processListing_Permutation providerFilter defaults response profileMap :
  processListing providerFilter defaults response profileMap
  ≡ₚ discovered (visitSummaries providerFilter defaults profileMap
                   (orDefault (modelSummaries response) [])).
Proof. apply toSorted_Permutation. Qed.

(** C5 (as amended).  A failure of the inference-profile listing does not
    abort discovery: the map then holds what the pages received before the
    failure recorded (nothing, when the first request fails), and the
    fetch fulfils with the listing processed under that map. *)
Theorem C5_profile_listing_failure_is_not_fatal
    (client : BedrockClient) (pages : list ListInferenceProfilesOutput)
    (e : Error) (rest : list (Exc ListInferenceProfilesOutput))
    (response : ListFoundationModelsOutput)
    (providerFilter : list string) (defaults : Defaults) :
  Forall (fun page => hasNextPage page = true) pages ->
  listInferenceProfiles client = (List.map Ok pages ++ Throw e :: rest)%list ->
  listFoundationModels client = Ok response ->
  buildInferenceProfileMap client = Some (fold_left recordPage pages ∅) /\
  (pages = [] -> buildInferenceProfileMap client = Some ∅) /\
  runDiscovery {| jobClient := client; jobProviderFilter := providerFilter;
                  jobDefaults := defaults |}
  = Some (Ok (processListing providerFilter defaults response
                (fold_left recordPage pages ∅))).
Proof.
  intros Hall Hprofiles Hlisting.
  assert (buildInferenceProfileMap client = Some (fold_left recordPage pages ∅)) as Hmap.
  { unfold buildInferenceProfileMap. rewrite Hprofiles.
    apply profilePages_failure, Hall. }
  split; [exact Hmap|]. split.
  - intros ->. exact Hmap.
  - unfold runDiscovery. simpl. rewrite Hlisting, Hmap. reflexivity.
Qed.

End WithHost.

End FetchSpec.

(** ** Model discovery: the cache key *)

Module CacheKeySpec.
Import JS JSFacts SortFacts Discovery FilterSpec.

(** *** The order of [toSorted()] *)

Definition codeUnitOrder (a b : string) : Prop := codeUnitLe a b = true.

Lemma ascii_compare_lt_trans x y z :
  Ascii.compare x y = Lt -> Ascii.compare y z = Lt -> Ascii.compare x z = Lt.
Proof.
  unfold Ascii.compare. rewrite !N.compare_lt_iff. lia.
Qed.

Lemma string_compare_refl s : String.compare s s = Eq.
Proof.
  induction s as [|c r IH]; simpl; [reflexivity|].
  unfold Ascii.compare. rewrite N.compare_refl. exact IH.
Qed.

Lemma string_compare_Lt_trans a b c :
  String.compare a b = Lt -> String.compare b c = Lt -> String.compare a c = Lt.
Proof.
  revert b c. induction a as [|x a IH]; intros [|y b] [|z c]; simpl;
    try discriminate; try reflexivity.
  destruct (Ascii.compare x y) eqn:Exy; try discriminate.
  - apply Ascii.compare_eq_iff in Exy. subst y.
    destruct (Ascii.compare x z) eqn:Exz; try discriminate; [|reflexivity].
    apply IH.
  - intros _. destruct (Ascii.compare y z) eqn:Eyz; try discriminate.
    + apply Ascii.compare_eq_iff in Eyz. subst z. rewrite Exy. reflexivity.
    + rewrite (ascii_compare_lt_trans x y z Exy Eyz). reflexivity.
Qed.

#[local] Instance codeUnitOrder_trans : Transitive codeUnitOrder.
Proof.
  intros a b c. unfold codeUnitOrder, codeUnitLe, String.leb.
  destruct (String.compare a b) eqn:Eab; try discriminate; intros _.
  - apply String.compare_eq_iff in Eab. subst b. auto.
  - destruct (String.compare b c) eqn:Ebc; try discriminate; intros _.
    + apply String.compare_eq_iff in Ebc. subst c. rewrite Eab. reflexivity.
    + rewrite (string_compare_Lt_trans a b c Eab Ebc). reflexivity.
Qed.

#[local] Instance codeUnitOrder_antisym : AntiSymm (=) codeUnitOrder.
Proof. intros a b. apply String.leb_antisym. Qed.

Lemma codeUnitLe_total a b : codeUnitLe a b = true \/ codeUnitLe b a = true.
Proof. apply String.leb_total. Qed.


(** *** Sets of strings as arrays *)

Lemma existsb_eqb_elem_of x (l : list string) :
  existsb (String.eqb x) l = true <-> x ∈ l.
Proof.
  rewrite existsb_exists, list_elem_of_In. split.
  - intros (y & Hy & E). apply String.eqb_eq in E. subst. exact Hy.
  - intros Hx. exists x. split; [exact Hx | apply String.eqb_refl].
Qed.

Lemma elem_of_arrayFromSet x seen l :
  x ∈ arrayFromSet seen l <-> x ∈ l /\ x ∉ seen.
Proof.
  revert seen. induction l as [|y l IH]; intros seen; simpl.
  - rewrite elem_of_nil. tauto.
  - destruct (existsb (String.eqb y) seen) eqn:E.
    + apply existsb_eqb_elem_of in E. rewrite IH, elem_of_cons.
      split; [tauto|]. intros [[->|Hx] Hn]; tauto.
    + assert (y ∉ seen) as Hy.
      { intros Hin%existsb_eqb_elem_of. congruence. }
      rewrite !elem_of_cons, IH, elem_of_cons.
      destruct (decide (x = y)) as [->|Hne]; [tauto|]. tauto.
Qed.

Lemma NoDup_arrayFromSet seen l : NoDup (arrayFromSet seen l).
Proof.
  revert seen. induction l as [|y l IH]; intros seen; simpl.
  - constructor.
  - destruct (existsb (String.eqb y) seen); [apply IH|].
    constructor; [|apply IH].
    rewrite elem_of_arrayFromSet, elem_of_cons. tauto.
Qed.

(** *** The normalised filter *)

(** The entries of the filter after normalisation, blank ones dropped. *)
Definition normalizedEntries (entries : list string) : list string :=
  List.filter (fun entry => (0 <? String.length entry)%nat)
    (List.map (fun entry => toLowerCase (trim entry)) entries).

Lemma normalizeProviderFilter_entries entries :
  normalizeProviderFilter (Some entries)
  = toSorted codeUnitLe (arrayFromSet [] (normalizedEntries entries)).
Proof. destruct entries; reflexivity. Qed.

Lemma elem_of_normalizedEntries x entries :
  x ∈ normalizedEntries entries <->
  exists e, e ∈ entries /\ x = toLowerCase (trim e) /\ x <> "".
Proof.
  unfold normalizedEntries.
  rewrite list_elem_of_In, filter_In, in_map_iff. split.
  - intros [(e & <- & He) Hlen]. exists e.
    split; [apply list_elem_of_In; exact He|]. split; [reflexivity|].
    destruct (toLowerCase (trim e)); [discriminate | congruence].
  - intros (e & He & -> & Hne). split.
    + exists e. split; [reflexivity | apply list_elem_of_In; exact He].
    + destruct (toLowerCase (trim e)); [congruence | reflexivity].
Qed.

(** The normalised filter is determined by the set of normalised
    entries. *)
Lemma normalizeProviderFilter_same_entries f1 f2 :
  (forall x, x ∈ normalizedEntries f1 <-> x ∈ normalizedEntries f2) ->
  normalizeProviderFilter (Some f1) = normalizeProviderFilter (Some f2).
Proof.
  intros Hsame. rewrite !normalizeProviderFilter_entries.
  apply (Sorted_unique codeUnitOrder).
  - apply toSorted_Sorted, codeUnitLe_total.
  - apply toSorted_Sorted, codeUnitLe_total.
  - rewrite !toSorted_Permutation.
    apply NoDup_Permutation; try apply NoDup_arrayFromSet.
    intros x. rewrite !elem_of_arrayFromSet, Hsame. reflexivity.
Qed.

(** *** Presentations of one filter *)

(** One change of presentation: the order of the entries, the case of
    the letters of an entry, white space around an entry, an entry
    repeated, a blank entry. *)
Inductive presentationStep : list string -> list string -> Prop :=
| step_order l l' :
    l ≡ₚ l' -> presentationStep l l'
| step_case l1 a b l2 :
    eqIgnoreCase a b = true ->
    presentationStep (l1 ++ a :: l2) (l1 ++ b :: l2)
| step_space l1 w1 a w2 l2 :
    isBlank w1 = true -> isBlank w2 = true ->
    presentationStep (l1 ++ a :: l2) (l1 ++ (w1 ++ a ++ w2)%string :: l2)
| step_duplicate l1 a l2 :
    presentationStep (l1 ++ a :: l2) (l1 ++ a :: a :: l2)
| step_blank l1 w l2 :
    isBlank w = true ->
    presentationStep (l1 ++ l2) (l1 ++ w :: l2).

(** Two filters differ only in presentation. *)
Inductive samePresentation : list string -> list string -> Prop :=
| same_step l l' : presentationStep l l' -> samePresentation l l'
| same_refl l : samePresentation l l
| same_sym l l' : samePresentation l l' -> samePresentation l' l
| same_trans l l' l'' :
    samePresentation l l' -> samePresentation l' l'' -> samePresentation l l''.

Ltac in_list :=
  rewrite ?elem_of_app, ?elem_of_cons in *; tauto.

Lemma presentationStep_entries l l' :
  presentationStep l l' ->
  forall x, x ∈ normalizedEntries l <-> x ∈ normalizedEntries l'.
Proof.
  intros Hstep x. rewrite !elem_of_normalizedEntries.
  destruct Hstep as [l l' Hperm | l1 a b l2 Hcase | l1 w1 a w2 l2 H1 H2 | l1 a l2 | l1 w l2 Hw].
  - split; intros (e & He & Hx); exists e; (split; [|exact Hx]).
    + rewrite <- Hperm. exact He.
    + rewrite Hperm. exact He.
  - apply eqIgnoreCase_normalized in Hcase.
    split; intros (e & He & Hx);
      apply elem_of_app in He as [He|[->|He]%elem_of_cons];
      try (exists e; split; [in_list | exact Hx]).
    + exists b. split; [in_list | congruence].
    + exists a. split; [in_list | congruence].
  - pose proof (trim_padded w1 a w2 H1 H2) as Hpad.
    split; intros (e & He & Hx);
      apply elem_of_app in He as [He|[->|He]%elem_of_cons];
      try (exists e; split; [in_list | exact Hx]).
    + exists (w1 ++ a ++ w2)%string. split; [in_list | congruence].
    + exists a. split; [in_list | congruence].
  - split; intros (e & He & Hx); exists e; (split; [in_list | exact Hx]).
  - split; intros (e & He & Hx).
    + exists e. split; [in_list | exact Hx].
    + apply elem_of_app in He as [He|[->|He]%elem_of_cons];
        try (exists e; split; [in_list | exact Hx]).
      exfalso. destruct Hx as [-> Hne]. apply Hne, isBlank_lower_trim, Hw.
Qed.

Lemma samePresentation_entries l l' :
  samePresentation l l' ->
  forall x, x ∈ normalizedEntries l <-> x ∈ normalizedEntries l'.
Proof.
  induction 1 as [l l' Hstep | l | l l' _ IH | l l' l'' _ IH1 _ IH2]; intros x.
  - apply presentationStep_entries, Hstep.
  - reflexivity.
  - symmetry. apply IH.
  - rewrite IH1. apply IH2.
Qed.

Lemma normalizeProviderFilter_absent :
  normalizeProviderFilter None = normalizeProviderFilter (Some []).
Proof. reflexivity. Qed.

(** C10.  Two calls whose provider filters differ only in presentation,
    and which agree on the region and on the three numbers of the
    configuration, derive the same cache key. *)
Theorem C10_cache_key_invariance (p1 p2 : Params) (c1 c2 : BedrockDiscoveryConfig) :
  config p1 = Some c1 ->
  config p2 = Some c2 ->
  region p1 = region p2 ->
  refreshInterval c1 = refreshInterval c2 ->
  defaultContextWindow c1 = defaultContextWindow c2 ->
  defaultMaxTokens c1 = defaultMaxTokens c2 ->
  samePresentation (orDefault (providerFilter c1) []) (orDefault (providerFilter c2) []) ->
  cacheKeyOf p1 = cacheKeyOf p2.
Proof.
  intros H1 H2 Hregion Hrefresh Hwindow Htokens Hsame.
  assert (providerFilterOf p1 = providerFilterOf p2) as Hfilter.
  { unfold providerFilterOf. rewrite H1, H2.
    assert (forall f, normalizeProviderFilter f = normalizeProviderFilter (Some (orDefault f [])))
      as Hnorm by (intros [f|]; reflexivity).
    rewrite (Hnorm (providerFilter c1)), (Hnorm (providerFilter c2)).
    apply normalizeProviderFilter_same_entries, samePresentation_entries, Hsame. }
  unfold cacheKeyOf, refreshIntervalSecondsOf, resolveDefaultContextWindow,
    resolveDefaultMaxTokens.
  rewrite Hfilter, H1, H2, Hregion, Hrefresh, Hwindow, Htokens. reflexivity.
Qed.

End CacheKeySpec.

(** ** Model discovery: the cache *)

Module CacheSpec.
Import JS JSFacts Discovery.

Section WithHost.
Context `{Host}.

(** The three ways the head of [discoverBedrockModels] can go. *)

Lemma discover_answered dateNow params st answer :
  (0 < refreshIntervalSecondsOf params)%Z ->
  lookupCache st (cacheKeyOf params) (orDefault (now params) dateNow) = Some answer ->
  discoverBedrockModels dateNow params st = (st, answer).
Proof.
  intros Hpos Hlookup. unfold discoverBedrockModels. cbv zeta.
  rewrite (proj2 (Z.ltb_lt _ _) Hpos), Hlookup. reflexivity.
Qed.

Lemma discover_fetches dateNow params st :
  (0 < refreshIntervalSecondsOf params)%Z ->
  lookupCache st (cacheKeyOf params) (orDefault (now params) dateNow) = None ->
  exists job,
    discoverBedrockModels dateNow params st =
    ({| discoveryCache :=
          <[cacheKeyOf params :=
              {| expiresAt := orDefault (now params) dateNow
                              + refreshIntervalSecondsOf params * 1000;
                 value := None;
                 inFlight := Some (length (promises st)) |}]> (discoveryCache st);
        hasLoggedBedrockError := hasLoggedBedrockError st;
        promises := promises st ++ [Pending job];
        warnings := warnings st;
        listingsSent := S (listingsSent st) |},
     Awaiting (length (promises st))
       {| kCacheKey := cacheKeyOf params;
          kNow := orDefault (now params) dateNow;
          kRefreshIntervalSeconds := refreshIntervalSecondsOf params |}).
Proof.
  intros Hpos Hlookup. unfold discoverBedrockModels. cbv zeta.
  rewrite (proj2 (Z.ltb_lt _ _) Hpos), Hlookup. eexists. reflexivity.
Qed.

Lemma discover_uncached dateNow params st :
  refreshIntervalSecondsOf params = 0%Z ->
  exists job,
    discoverBedrockModels dateNow params st =
    ({| discoveryCache := discoveryCache st;
        hasLoggedBedrockError := hasLoggedBedrockError st;
        promises := promises st ++ [Pending job];
        warnings := warnings st;
        listingsSent := S (listingsSent st) |},
     Awaiting (length (promises st))
       {| kCacheKey := cacheKeyOf params;
          kNow := orDefault (now params) dateNow;
          kRefreshIntervalSeconds := 0 |}) /\
    job = {| jobClient :=
               orDefault (clientFactory params) createProxyAwareBedrockClient (region params);
             jobProviderFilter := providerFilterOf params;
             jobDefaults :=
               {| defContextWindow := resolveDefaultContextWindow (config params);
                  defMaxTokens := resolveDefaultMaxTokens (config params) |} |}.
Proof.
  intros Hzero. unfold discoverBedrockModels. cbv zeta.
  rewrite Hzero. cbn [Z.ltb Z.compare]. eexists. split; reflexivity.
Qed.

(** C3.  With a positive refresh interval, a call that finds a cached value
    whose expiry is after the current time returns that value and changes
    nothing (so sends nothing); a call that finds the value expired starts
    one fetch.  With a refresh interval of zero, a call starts one fetch
    whatever the cache holds, and neither the call nor its completion
    changes the cache. *)
Theorem C3_cache_hit_expiry_bypass (dateNow : Z) (params : Params) (st : State) :
  ((0 < refreshIntervalSecondsOf params)%Z ->
   forall cached v,
     discoveryCache st !! cacheKeyOf params = Some cached ->
     value cached = Some v ->
     ((orDefault (now params) dateNow < expiresAt cached)%Z ->
      discoverBedrockModels dateNow params st = (st, Returned v)) /\
     ((expiresAt cached <= orDefault (now params) dateNow)%Z ->
      inFlight cached = None ->
      exists st' k,
        discoverBedrockModels dateNow params st = (st', Awaiting (length (promises st)) k) /\
        listingsSent st' = S (listingsSent st) /\
        length (promises st') = S (length (promises st)))) /\
  (refreshIntervalSecondsOf params = 0%Z ->
   exists st' k,
     discoverBedrockModels dateNow params st = (st', Awaiting (length (promises st)) k) /\
     listingsSent st' = S (listingsSent st) /\
     discoveryCache st' = discoveryCache st /\
     (forall outcome, discoveryCache (afterAwait k outcome st').1 = discoveryCache st) /\
     (forall cache,
        discoverBedrockModels dateNow params (withCache st cache)
        = (withCache st' cache, Awaiting (length (promises st)) k))).
Proof.
  split.
  - intros Hpos cached v Hcached Hvalue. split.
    + intros Hfresh. apply discover_answered; [exact Hpos|].
      unfold lookupCache. rewrite Hcached, Hvalue.
      rewrite (proj2 (Z.ltb_lt _ _) Hfresh). reflexivity.
    + intros Hexpired Hidle.
      destruct (discover_fetches dateNow params st Hpos) as [job ->].
      * unfold lookupCache. rewrite Hcached, Hvalue, Hidle.
        rewrite (proj2 (Z.ltb_ge _ _) Hexpired). reflexivity.
      * do 2 eexists. split; [reflexivity|]. split; [reflexivity|].
        cbn [promises]. rewrite length_app. simpl. lia.
  - intros Hzero.
    destruct (discover_uncached dateNow params st Hzero) as (job & Hcall & Hjob).
    do 2 eexists. split; [exact Hcall|]. split; [reflexivity|]. split; [reflexivity|]. split.
    + intros [v|e]; unfold afterAwait; cbn [kRefreshIntervalSeconds Z.ltb Z.compare].
      * reflexivity.
      * destruct (negb _); reflexivity.
    + intros cache.
      destruct (discover_uncached dateNow params (withCache st cache) Hzero)
        as (job' & -> & Hjob').
      rewrite Hjob, Hjob'. reflexivity.
Qed.

(** C2.  A call that arrives with the same cache key while the fetch of an
    earlier call is pending starts no fetch: it returns the pending promise
    the earlier call awaits, and leaves the state as it is.  One listing
    has been sent for both calls, and when the promise fulfils both calls
    resolve to its value. *)
Theorem C2_concurrent_calls_share_fetch
    (dateNow1 dateNow2 : Z) (params1 params2 : Params) (st st1 : State)
    (p : PromiseId) (k : Continuation) :
  (0 < refreshIntervalSecondsOf params1)%Z ->
  (0 < refreshIntervalSecondsOf params2)%Z ->
  cacheKeyOf params1 = cacheKeyOf params2 ->
  discoverBedrockModels dateNow1 params1 st = (st1, Awaiting p k) ->
  listingsSent st1 = S (listingsSent st) /\
  (exists job, promises st1 !! p = Some (Pending job)) /\
  discoverBedrockModels dateNow2 params2 st1 = (st1, ReturnedPromise p) /\
  (forall st2 v,
      settle p st1 = Some (st2, Ok v) ->
      (callOutcome (Awaiting p k) (Ok v) st2).2 = Ok v /\
      (callOutcome (ReturnedPromise p) (Ok v) st2).2 = Ok v).
Proof.
  intros Hpos1 Hpos2 Hkey Hfirst.
  assert (lookupCache st (cacheKeyOf params1) (orDefault (now params1) dateNow1) = None)
    as Hmiss.
  { destruct (lookupCache st _ _) as [answer|] eqn:E; [|reflexivity].
    rewrite (discover_answered _ _ _ answer Hpos1 E) in Hfirst.
    injection Hfirst as _ ->.
    unfold lookupCache in E.
    destruct (discoveryCache st !! _) as [c|]; [|discriminate].
    destruct (value c); [destruct (_ <? _)%Z|]; try discriminate;
      destruct (inFlight c); discriminate. }
  destruct (discover_fetches dateNow1 params1 st Hpos1 Hmiss) as [job Hcall].
  rewrite Hcall in Hfirst. injection Hfirst as <- <- <-.
  split; [reflexivity|]. split.
  - exists job. cbn [promises]. rewrite lookup_app_r by lia.
    rewrite Nat.sub_diag. reflexivity.
  - split.
    + apply discover_answered; [exact Hpos2|].
      unfold lookupCache. cbn [discoveryCache]. rewrite <- Hkey, lookup_insert_eq.
      reflexivity.
    + intros st2 v _. split; [|reflexivity].
      unfold callOutcome, afterAwait. destruct (_ <? _)%Z; reflexivity.
Qed.

(** The call that awaits the fetch absorbs its failure: it returns the
    empty list and, under a positive refresh interval, deletes the cache
    entry of its key. *)
Lemma afterAwait_rejected k e st :
  (afterAwait k (Throw e) st).2 = [] /\
  ((0 < kRefreshIntervalSeconds k)%Z ->
   discoveryCache (afterAwait k (Throw e) st).1 !! kCacheKey k = None).
Proof.
  unfold afterAwait. split; [reflexivity|].
  intros Hpos. rewrite (proj2 (Z.ltb_lt _ _) Hpos). cbn [fst].
  destruct (negb _); cbn [discoveryCache withCache]; apply lookup_delete_eq.
Qed.

End WithHost.

End CacheSpec.

(** ** The properties on concrete runs *)

Module Scenarios.
Import JS JSFacts Discovery FilterSpec FetchSpec CacheKeySpec CacheSpec.

Definition claudeSummary : BedrockModelSummary :=
  {| modelId := Some "anthropic.claude-3-7-sonnet-20250219-v1:0";
     modelName := Some "Claude 3.7 Sonnet";
     providerName := Some "Anthropic";
     inputModalities := Some ["TEXT"; "IMAGE"];
     outputModalities := Some ["TEXT"];
     responseStreamingSupported := Some true;
     modelLifecycleStatus := Some "ACTIVE" |}.

Definition claudeProfile : InferenceProfileSummary :=
  {| inferenceProfileId := Some "us.anthropic.claude-3-7-sonnet-20250219-v1:0";
     models :=
       Some [ {| modelArn :=
                   Some "arn:aws:bedrock:us-east-1::foundation-model/anthropic.claude-3-7-sonnet-20250219-v1:0" |} ] |}.

Definition claudeProfileMap : gmap string string :=
  {[ "anthropic.claude-3-7-sonnet-20250219-v1:0" :=
       "us.anthropic.claude-3-7-sonnet-20250219-v1:0" ]}.

Definition lastPage : ListInferenceProfilesOutput :=
  {| inferenceProfileSummaries := Some [claudeProfile]; nextToken := None |}.

Definition firstPage : ListInferenceProfilesOutput :=
  {| inferenceProfileSummaries := Some [claudeProfile]; nextToken := Some "page-2" |}.

Definition listing : ListFoundationModelsOutput :=
  {| modelSummaries := Some [claudeSummary] |}.

Definition outage : Error := MkError "connect ETIMEDOUT".

(** A client that answers everything. *)
Definition goodClient : BedrockClient :=
  {| listFoundationModels := Ok listing; listInferenceProfiles := [Ok lastPage] |}.

(** A client whose second page of inference profiles fails. *)
Definition flakyClient : BedrockClient :=
  {| listFoundationModels := Ok listing;
     listInferenceProfiles := [Ok firstPage; Throw outage] |}.

(** A client whose listing of the foundation models fails. *)
Definition failingClient : BedrockClient :=
  {| listFoundationModels := Throw outage; listInferenceProfiles := [Throw outage] |}.

Definition sampleHost : Host :=
  {| localeCompare := fun a b =>
       match String.compare a b with Lt => (-1)%Z | Eq => 0%Z | Gt => 1%Z end;
     createProxyAwareBedrockClient := fun _ => goodClient |}.

Definition sampleDefaults : Defaults :=
  {| defContextWindow := DEFAULT_CONTEXT_WINDOW; defMaxTokens := DEFAULT_MAX_TOKENS |}.

Lemma C5_profile_listing_failure_is_not_fatal_witness :
  buildInferenceProfileMap flakyClient = Some (fold_left recordPage [firstPage] ∅) /\
  ([firstPage] = [] -> buildInferenceProfileMap flakyClient = Some ∅) /\
  @runDiscovery sampleHost
    {| jobClient := flakyClient; jobProviderFilter := []; jobDefaults := sampleDefaults |}
  = Some (Ok (@processListing sampleHost [] sampleDefaults listing
                (fold_left recordPage [firstPage] ∅))).
Proof.
  apply (@C5_profile_listing_failure_is_not_fatal sampleHost flakyClient
           [firstPage] outage [] listing [] sampleDefaults).
  - repeat constructor.
  - reflexivity.
  - reflexivity.
Defined.

(** C5 as stated fails: the pages received before the failure have left
    their entries in the map. *)
Lemma C5_counterexample_partial_map :
  ~ (forall (client : BedrockClient) (pages : list ListInferenceProfilesOutput)
            (e : Error) (rest : list (Exc ListInferenceProfilesOutput)),
       Forall (fun page => hasNextPage page = true) pages ->
       listInferenceProfiles client = (List.map Ok pages ++ Throw e :: rest)%list ->
       buildInferenceProfileMap client = Some ∅).
Proof.
  intros Hclaim.
  assert (Forall (fun page => hasNextPage page = true) [firstPage]) as Hpages
    by (repeat constructor).
  specialize (Hclaim flakyClient [firstPage] outage [] Hpages eq_refl).
  assert (buildInferenceProfileMap flakyClient = Some claudeProfileMap) as Hmap
    by (vm_compute; reflexivity).
  rewrite Hmap in Hclaim.
  assert (claudeProfileMap = ∅) as Hempty by congruence.
  apply (f_equal (fun m : gmap string string =>
                    m !! "anthropic.claude-3-7-sonnet-20250219-v1:0")) in Hempty.
  vm_compute in Hempty. discriminate.
Qed.


Definition presentedConfig (entries : list string) : BedrockDiscoveryConfig :=
  {| refreshInterval := None; providerFilter := Some entries;
     defaultContextWindow := None; defaultMaxTokens := None |}.

Definition presentedParams (entries : list string) : Params :=
  {| region := "us-east-1"; config := Some (presentedConfig entries);
     now := None; clientFactory := None |}.

Lemma C10_cache_key_invariance_witness :
  cacheKeyOf (presentedParams ["anthropic"; " Amazon "])
  = cacheKeyOf (presentedParams ["amazon"; "anthropic"]).
Proof.
  apply (C10_cache_key_invariance _ _
           (presentedConfig ["anthropic"; " Amazon "])
           (presentedConfig ["amazon"; "anthropic"]));
    try reflexivity.
  simpl. apply same_trans with ["anthropic"; "Amazon"].
  - apply same_sym, same_step.
    apply (step_space ["anthropic"] " " "Amazon" " " []); reflexivity.
  - apply same_trans with ["anthropic"; "amazon"].
    + apply same_step. apply (step_case ["anthropic"] "Amazon" "amazon" []). reflexivity.
    + apply same_step, step_order. apply Permutation_swap.
Defined.

(** The same on a filter with a duplicate and a blank entry, by
    evaluation. *)
Example cacheKeyOf_presentations :
  cacheKeyOf (presentedParams ["Anthropic"; " amazon "; ""; "anthropic"])
  = cacheKeyOf (presentedParams ["amazon"; "anthropic"]).
Proof. vm_compute. reflexivity. Qed.

(** *** Runs of the cache *)

(** A call at time 1000 with the default configuration (a refresh
    interval of 3600 seconds), against [client]. *)
Definition callAt (t : Z) (client : BedrockClient) : Params :=
  {| region := "us-east-1"; config := None; now := Some t;
     clientFactory := Some (fun _ => client) |}.

Definition firstKey : string := cacheKeyOf (callAt 1000 goodClient).

Definition firstContinuation : Continuation :=
  {| kCacheKey := firstKey; kNow := 1000; kRefreshIntervalSeconds := 3600 |}.

(** The state after a first call, while its fetch is pending. *)
Definition fetching (client : BedrockClient) : State :=
  (@discoverBedrockModels sampleHost 0 (callAt 1000 client) initialState).1.

Lemma first_call_fetches client :
  @discoverBedrockModels sampleHost 0 (callAt 1000 client) initialState
  = (fetching client, Awaiting 0 firstContinuation).
Proof. reflexivity. Qed.

Lemma C2_concurrent_calls_share_fetch_witness :
  listingsSent (fetching goodClient) = 1 /\
  @discoverBedrockModels sampleHost 0 (callAt 1500 goodClient) (fetching goodClient)
  = (fetching goodClient, ReturnedPromise 0).
Proof.
  destruct (@C2_concurrent_calls_share_fetch sampleHost 0 0
              (callAt 1000 goodClient) (callAt 1500 goodClient)
              initialState (fetching goodClient) 0 firstContinuation)
    as (Hsent & _ & Hsecond & _).
  - reflexivity.
  - reflexivity.
  - reflexivity.
  - apply first_call_fetches.
  - split; [exact Hsent | exact Hsecond].
Defined.

(** What the fetch against [goodClient] yields. *)
Definition discoveredModels : list ModelDefinitionConfig :=
  @processListing sampleHost [] sampleDefaults listing claudeProfileMap.

(** The state once that fetch has succeeded and the first call has stored
    its value. *)
Definition fresh : State :=
  match @settle sampleHost 0 (fetching goodClient) with
  | Some (st, outcome) => (afterAwait firstContinuation outcome st).1
  | None => fetching goodClient
  end.

Definition freshEntry : BedrockDiscoveryCacheEntry :=
  {| expiresAt := 3601000; value := Some discoveredModels; inFlight := None |}.

Lemma fresh_entry : discoveryCache fresh !! firstKey = Some freshEntry.
Proof. vm_compute. reflexivity. Qed.

(** With no refresh interval. *)
Definition uncached : Params :=
  {| region := "us-east-1";
     config := Some {| refreshInterval := Some 0%Q; providerFilter := None;
                       defaultContextWindow := None; defaultMaxTokens := None |};
     now := Some 1000%Z;
     clientFactory := Some (fun _ => goodClient) |}.

Lemma C3_cache_hit_expiry_bypass_witness :
  @discoverBedrockModels sampleHost 0 (callAt 2000 goodClient) fresh
    = (fresh, Returned discoveredModels) /\
  (exists st' k,
     @discoverBedrockModels sampleHost 0 (callAt 3601000 goodClient) fresh
       = (st', Awaiting 1 k) /\
     listingsSent st' = 2 /\ length (promises st') = 2) /\
  (exists st' k,
     @discoverBedrockModels sampleHost 0 uncached fresh = (st', Awaiting 1 k) /\
     listingsSent st' = 2 /\ discoveryCache st' = discoveryCache fresh).
Proof.
  split; [|split].
  - apply (proj1 (@C3_cache_hit_expiry_bypass sampleHost 0 (callAt 2000 goodClient) fresh)
             eq_refl freshEntry discoveredModels fresh_entry eq_refl).
    reflexivity.
  - apply (proj1 (@C3_cache_hit_expiry_bypass sampleHost 0 (callAt 3601000 goodClient) fresh)
             eq_refl freshEntry discoveredModels fresh_entry eq_refl).
    + discriminate.
    + reflexivity.
  - destruct (proj2 (@C3_cache_hit_expiry_bypass sampleHost 0 uncached fresh) eq_refl)
      as (st' & k & Hcall & Hsent & Hcache & _).
    exists st', k. split; [exact Hcall|]. split; [exact Hsent | exact Hcache].
Defined.

(** The state once the listing against [failingClient] has failed, before
    any call has been resumed. *)
Definition rejected : State :=
  match @settle sampleHost 0 (fetching failingClient) with
  | Some (st, _) => st
  | None => fetching failingClient
  end.

Lemma listing_fails :
  @settle sampleHost 0 (fetching failingClient) = Some (rejected, Throw outage).
Proof. vm_compute. reflexivity. Qed.

(** C4, on a run that breaks it.  Two calls with the same parameters
    arrive while the listing is pending, and the listing fails.  The call
    that started the fetch returns the empty list and deletes the cache
    entry; the call that received the pending promise rejects with the
    error of the listing. *)
Theorem C4_shared_call_rejects :
  @discoverBedrockModels sampleHost 0 (callAt 1000 failingClient) initialState
    = (fetching failingClient, Awaiting 0 firstContinuation) /\
  @discoverBedrockModels sampleHost 0 (callAt 1500 failingClient) (fetching failingClient)
    = (fetching failingClient, ReturnedPromise 0) /\
  @settle sampleHost 0 (fetching failingClient) = Some (rejected, Throw outage) /\
  (callOutcome (Awaiting 0 firstContinuation) (Throw outage) rejected).2 = Ok [] /\
  discoveryCache (callOutcome (Awaiting 0 firstContinuation) (Throw outage) rejected).1
    !! firstKey = None /\
  (callOutcome (ReturnedPromise 0) (Throw outage) rejected).2 = Throw outage.
Proof.
  split; [apply first_call_fetches|].
  split; [vm_compute; reflexivity|].
  split; [apply listing_fails|].
  split; [reflexivity|].
  split; [|reflexivity].
  apply (afterAwait_rejected firstContinuation outage rejected). reflexivity.
Qed.

End Scenarios.

(* ===================================================================== *)
(** * Further properties *)
(* ===================================================================== *)

(** ** More facts on the string primitives *)

Module JSMore.
Import JS JSFacts.

Lemma prefix_slice p s :
  String.prefix p s = true -> s = p ++ slice (String.length p) s.
Proof.
  revert s. induction p as [|a p IH]; intros s; [reflexivity|].
  destruct s as [|b s]; simpl; [discriminate|].
  destruct (ascii_dec a b) as [->|]; [|discriminate].
  intros Hp. rewrite append_cons. f_equal. apply IH, Hp.
Qed.

Lemma prefix_append p s : String.prefix p (p ++ s) = true.
Proof.
  induction p as [|a p IH]; [apply prefix_nil|].
  rewrite append_cons. simpl. destruct (ascii_dec a a); [exact IH | congruence].
Qed.

Lemma slice_append p s : slice (String.length p) (p ++ s) = s.
Proof. induction p as [|a p IH]; [reflexivity | exact IH]. Qed.

Lemma append_assoc a b c : (a ++ b) ++ c = a ++ b ++ c.
Proof. induction a as [|x a IH]; [reflexivity|]. rewrite !append_cons, IH. reflexivity. Qed.

Lemma append_cancel_l a x y : a ++ x = a ++ y -> x = y.
Proof.
  induction a as [|c a IH]; [auto|]. rewrite !append_cons. intros [= Hxy]. auto.
Qed.

Lemma trimEnd_nonws_head c r :
  isWhiteSpace c = false -> exists r', trimEnd (String c r) = String c r'.
Proof.
  intros Hc. simpl. destruct (trimEnd r); [rewrite Hc|]; eexists; reflexivity.
Qed.

Lemma trimEnd_last_nonws s d :
  lastChar (trimEnd s) = Some d -> isWhiteSpace d = false.
Proof.
  induction s as [|c r IH]; simpl; [discriminate|].
  destruct (trimEnd r) as [|c' r'] eqn:E.
  - destruct (isWhiteSpace c) eqn:Hc; simpl; [discriminate|].
    intros [= <-]. exact Hc.
  - simpl. exact IH.
Qed.

Lemma trimStart_nonws_head s c r :
  trimStart s = String c r -> isWhiteSpace c = false.
Proof.
  induction s as [|x s IH]; simpl; [discriminate|].
  destruct (isWhiteSpace x) eqn:Hx; [exact IH|].
  intros [= -> _]. exact Hx.
Qed.

(** What [trim] returns has no white space at either end. *)
Lemma noSurroundingWhiteSpace_trim s : noSurroundingWhiteSpace (trim s) = true.
Proof.
  unfold trim. destruct (trimStart s) as [|c r] eqn:E; [reflexivity|].
  pose proof (trimStart_nonws_head s c r E) as Hc.
  destruct (trimEnd_nonws_head c r Hc) as [r' Hr'].
  unfold noSurroundingWhiteSpace. rewrite Hr'. rewrite Hc. simpl negb. cbv iota.
  rewrite <- Hr'. destruct (lastChar (trimEnd (String c r))) as [d|] eqn:L; [|reflexivity].
  rewrite (trimEnd_last_nonws _ _ L). reflexivity.
Qed.

Lemma trim_idempotent s : trim (trim s) = trim s.
Proof. apply trim_noSurroundingWhiteSpace, noSurroundingWhiteSpace_trim. Qed.

Lemma truthy_trim_iff s : truthy (trim s) = true <-> isBlank s = false.
Proof.
  pose proof (trim_empty_iff s) as Hb.
  destruct (trim s) eqn:E; simpl; destruct (isBlank s); split; try congruence.
  - intros _. destruct Hb as [Hb _]. specialize (Hb eq_refl). discriminate.
  - intros _. destruct Hb as [_ Hb]. specialize (Hb eq_refl). discriminate.
Qed.

End JSMore.

(** ** The embeddings provider: creation and batches *)

Module EmbeddingsMore.
Import JS JSFacts JSMore Embeddings.

(** The environment variable [name] is set to a value that is not blank. *)
Definition envNonBlank (env : Env) (name : string) : Prop :=
  exists v, env !! name = Some v /\ isBlank v = false.

Lemma envSet_spec env name : envSet env name = true <-> envNonBlank env name.
Proof.
  unfold envSet, envNonBlank. destruct (env !! name) as [v|].
  - rewrite truthy_trim_iff. split.
    + intros Hv. exists v. auto.
    + intros (w & [= <-] & Hw). exact Hw.
  - split; [discriminate | intros (w & Hw & _); discriminate].
Qed.

(** The credential forms the factory accepts. *)
Definition hasCredentials (env : Env) : Prop :=
  (envNonBlank env "AWS_ACCESS_KEY_ID" /\ envNonBlank env "AWS_SECRET_ACCESS_KEY") \/
  envNonBlank env "AWS_BEARER_TOKEN_BEDROCK" \/
  envNonBlank env "AWS_PROFILE".

Lemma validateCredentials_Ok_iff (env : Env) :
  validateCredentials env = Ok tt <-> hasCredentials env.
Proof.
  unfold hasCredentials. rewrite <- !envSet_spec. unfold validateCredentials.
  destruct (envSet env "AWS_ACCESS_KEY_ID"), (envSet env "AWS_SECRET_ACCESS_KEY"),
    (envSet env "AWS_BEARER_TOKEN_BEDROCK"), (envSet env "AWS_PROFILE"); simpl;
    split; try tauto; try discriminate; intros [[? ?]|[?|?]]; discriminate.
Qed.

(** The credential check passes exactly when the access key and the
    secret key are both set, or the bearer token is, or the profile is;
    a variable set to a blank value counts as unset. *)
Theorem validateCredentials_accepts_iff (env : Env) :
  validateCredentials env = Ok tt <->
  (envNonBlank env "AWS_ACCESS_KEY_ID" /\ envNonBlank env "AWS_SECRET_ACCESS_KEY") \/
  envNonBlank env "AWS_BEARER_TOKEN_BEDROCK" \/
  envNonBlank env "AWS_PROFILE".
Proof. apply validateCredentials_Ok_iff. Qed.

Lemma resolveBedrockRegion_nonEmpty (env : Env) (options : EmbeddingProviderOptions) :
  resolveBedrockRegion env options <> "" /\
  noSurroundingWhiteSpace (resolveBedrockRegion env options) = true.
Proof.
  assert (forall a rest,
             rest <> "" /\ noSurroundingWhiteSpace rest = true ->
             orElse a rest <> "" /\ noSurroundingWhiteSpace (orElse a rest) = true) as Hstep.
  { intros [v|] rest Hrest; simpl; [|exact Hrest].
    destruct (truthy (trim v)) eqn:T; [|exact Hrest].
    split; [|apply noSurroundingWhiteSpace_trim].
    destruct (trim v); [discriminate | congruence]. }
  unfold resolveBedrockRegion. do 3 apply Hstep. split; [discriminate | reflexivity].
Qed.

(** The region is never empty and carries no white space at its ends. *)
Theorem resolveBedrockRegion_wellformed (env : Env) (options : EmbeddingProviderOptions) :
  resolveBedrockRegion env options <> "" /\
  noSurroundingWhiteSpace (resolveBedrockRegion env options) = true.
Proof. apply resolveBedrockRegion_nonEmpty. Qed.

(** The candidates for the region, in the order of their priority. *)
Definition regionCandidates (env : Env) (options : EmbeddingProviderOptions)
  : list (option string) :=
  [optProviderRegion options; env !! "AWS_REGION"; env !! "AWS_DEFAULT_REGION"].

Definition isNonBlankCandidate (a : option string) : bool :=
  match a with Some v => negb (isBlank v) | None => false end.

(** The region is the first candidate that is set and not blank, trimmed;
    it is the default region when there is none. *)
Theorem resolveBedrockRegion_priority (env : Env) (options : EmbeddingProviderOptions) :
  resolveBedrockRegion env options =
  match List.find isNonBlankCandidate (regionCandidates env options) with
  | Some (Some v) => trim v
  | _ => DEFAULT_BEDROCK_REGION
  end.
Proof.
  assert (forall a rest,
             orElse a rest = if isNonBlankCandidate a
                             then match a with Some v => trim v | None => rest end
                             else rest) as Hstep.
  { intros [v|] rest; simpl; [|reflexivity].
    destruct (truthy (trim v)) eqn:T.
    - apply truthy_trim_iff in T. rewrite T. reflexivity.
    - destruct (isBlank v) eqn:B; [reflexivity|].
      apply truthy_trim_iff in B. congruence. }
  unfold resolveBedrockRegion, regionCandidates. rewrite !Hstep. simpl.
  destruct (optProviderRegion options) as [a|]; simpl;
    [destruct (negb (isBlank a)); [reflexivity|]|];
    (destruct (env !! "AWS_REGION") as [b|]; simpl;
     [destruct (negb (isBlank b)); [reflexivity|]|]);
    (destruct (env !! "AWS_DEFAULT_REGION") as [c|]; simpl;
     [destruct (negb (isBlank c))|]); reflexivity.
Qed.

(** The model strings the factory takes for the registered model. *)
Definition namesRegisteredModel (model : string) : Prop :=
  isBlank model = true \/
  trim model = DEFAULT_BEDROCK_EMBEDDING_MODEL \/
  trim model = "bedrock/" ++ DEFAULT_BEDROCK_EMBEDDING_MODEL.

Lemma normalizeBedrockModel_registered_iff model :
  normalizeBedrockModel model = DEFAULT_BEDROCK_EMBEDDING_MODEL <->
  namesRegisteredModel model.
Proof.
  unfold namesRegisteredModel, normalizeBedrockModel.
  rewrite <- (trim_empty_iff model).
  destruct (trim model) as [|c r] eqn:E; [simpl; tauto|].
  cbn [truthy negb]. cbv iota.
  destruct (startsWith "bedrock/" (String c r)) eqn:P.
  - pose proof (prefix_slice _ _ P) as Hs. split.
    + intros Hd. right; right. rewrite Hs at 1. rewrite Hd. reflexivity.
    + intros [Hb|[Hb|Hb]]; [discriminate| |].
      * rewrite Hb in P. vm_compute in P. discriminate.
      * rewrite Hb. apply (slice_append "bedrock/").
  - split; [tauto|].
    intros [Hb|[Hb|Hb]]; [discriminate | exact Hb |].
    rewrite Hb in P. unfold startsWith in P. rewrite prefix_append in P. discriminate.
Qed.

Lemma registry_lookup_iff modelId :
  (exists cfg, BEDROCK_MODEL_REGISTRY modelId = Some cfg) <->
  modelId = DEFAULT_BEDROCK_EMBEDDING_MODEL.
Proof.
  unfold BEDROCK_MODEL_REGISTRY.
  destruct (String.eqb_spec modelId "amazon.nova-2-multimodal-embeddings-v1:0") as [->|Hne].
  - split; [reflexivity | eauto].
  - split; [intros [cfg Hc]; discriminate | intros ->; exfalso; apply Hne; reflexivity].
Qed.

(** The model strings whose normalised id is a property which the registry
    object inherits. *)
Definition namesInheritedProperty (model : string) : Prop :=
  exists name,
    In name objectPrototypeProperties /\
    (trim model = name \/ trim model = "bedrock/" ++ name).

(** When the normalised id is a given id that is not empty and does not
    itself start with the prefix. *)
Lemma normalizeBedrockModel_eq_iff model target :
  target <> "" ->
  startsWith "bedrock/" target = false ->
  normalizeBedrockModel model = target <->
  (isBlank model = true /\ target = DEFAULT_BEDROCK_EMBEDDING_MODEL) \/
  trim model = target \/
  trim model = "bedrock/" ++ target.
Proof.
  intros Hne Hpre. unfold normalizeBedrockModel.
  rewrite <- (trim_empty_iff model).
  destruct (trim model) as [|c r] eqn:E.
  - simpl. split.
    + intros <-. left. split; reflexivity.
    + intros [[_ ->]|[Hb|Hb]]; [reflexivity | congruence | discriminate].
  - cbn [truthy negb]. cbv iota.
    destruct (startsWith "bedrock/" (String c r)) eqn:P.
    + pose proof (prefix_slice _ _ P) as Hs. split.
      * intros Hd. right; right. rewrite Hs at 1. rewrite Hd. reflexivity.
      * intros [[Hb _]|[Hb|Hb]]; [discriminate| |].
        -- rewrite Hb in P. congruence.
        -- rewrite Hb. apply (slice_append "bedrock/").
    + split; [tauto|].
      intros [[Hb _]|[Hb|Hb]]; [discriminate | exact Hb |].
      rewrite Hb in P. unfold startsWith in P. rewrite prefix_append in P. discriminate.
Qed.

Lemma normalizeBedrockModel_inherited_iff model :
  existsb (String.eqb (normalizeBedrockModel model)) objectPrototypeProperties = true <->
  namesInheritedProperty model.
Proof.
  assert (forall name, In name objectPrototypeProperties ->
            name <> "" /\ startsWith "bedrock/" name = false /\
            name <> DEFAULT_BEDROCK_EMBEDDING_MODEL) as Hnames.
  { intros name Hin. cbn [In objectPrototypeProperties] in Hin.
    repeat (destruct Hin as [<-|Hin];
            [split; [discriminate | split; [reflexivity | discriminate]]|]).
    contradiction. }
  unfold namesInheritedProperty. rewrite existsb_exists. split.
  - intros (name & Hin & Heq). apply String.eqb_eq in Heq.
    exists name. split; [exact Hin|].
    destruct (Hnames name Hin) as (H1 & H2 & H3).
    apply (normalizeBedrockModel_eq_iff model name H1 H2) in Heq.
    destruct Heq as [[_ Hd]|Heq]; [contradiction | exact Heq].
  - intros (name & Hin & Heq). exists name. split; [exact Hin|].
    apply String.eqb_eq.
    destruct (Hnames name Hin) as (H1 & H2 & H3).
    apply (normalizeBedrockModel_eq_iff model name H1 H2). right. exact Heq.
Qed.

(** The three answers of the registry, by the model string. *)
Lemma registryGet_cases model :
  match registryGet (normalizeBedrockModel model) with
  | OwnConfig cfg =>
      namesRegisteredModel model /\
      BEDROCK_MODEL_REGISTRY DEFAULT_BEDROCK_EMBEDDING_MODEL = Some cfg
  | InheritedMember => ~ namesRegisteredModel model /\ namesInheritedProperty model
  | Undefined => ~ namesRegisteredModel model /\ ~ namesInheritedProperty model
  end.
Proof.
  unfold registryGet.
  destruct (BEDROCK_MODEL_REGISTRY (normalizeBedrockModel model)) as [cfg|] eqn:R.
  - assert (normalizeBedrockModel model = DEFAULT_BEDROCK_EMBEDDING_MODEL) as Hm
      by (apply registry_lookup_iff; eauto).
    split; [apply normalizeBedrockModel_registered_iff; exact Hm|].
    rewrite <- Hm. exact R.
  - assert (~ namesRegisteredModel model) as Hn.
    { rewrite <- normalizeBedrockModel_registered_iff. intros Hm.
      assert (exists cfg, BEDROCK_MODEL_REGISTRY (normalizeBedrockModel model) = Some cfg)
        as [cfg Hc] by (apply registry_lookup_iff; exact Hm).
      congruence. }
    destruct (existsb (String.eqb (normalizeBedrockModel model)) objectPrototypeProperties)
      eqn:P.
    + split; [exact Hn | apply normalizeBedrockModel_inherited_iff; exact P].
    + split; [exact Hn|]. rewrite <- normalizeBedrockModel_inherited_iff. congruence.
Qed.

(** The factory returns a provider exactly when the environment holds
    credentials and the model string names the registered model or a
    property that the registry object inherits from its prototype (such as
    [constructor] or [bedrock/toString]).  The model is checked first: for
    any other model string the outcome is the same whatever the
    environment. *)
Theorem createBedrockEmbeddingProvider_succeeds_iff
    (env : Env) (createBedrockRuntimeClient : string -> Transport)
    (options : EmbeddingProviderOptions) :
  ((exists created,
       createBedrockEmbeddingProvider env createBedrockRuntimeClient options = Ok created) <->
   (namesRegisteredModel (optModel options) \/ namesInheritedProperty (optModel options)) /\
   hasCredentials env) /\
  (~ (namesRegisteredModel (optModel options) \/ namesInheritedProperty (optModel options)) ->
   forall env',
     createBedrockEmbeddingProvider env' createBedrockRuntimeClient options
     = createBedrockEmbeddingProvider env createBedrockRuntimeClient options).
Proof.
  rewrite <- validateCredentials_Ok_iff.
  pose proof (registryGet_cases (optModel options)) as Hcases.
  unfold createBedrockEmbeddingProvider.
  destruct (registryGet (normalizeBedrockModel (optModel options))) as [cfg| |].
  - destruct Hcases as [Hreg _].
    split; [|intros Hn; exfalso; apply Hn; left; exact Hreg].
    destruct (validateCredentials env) as [[]|e]; simpl.
    + split; [auto | eauto].
    + split; [intros [x Hx]; discriminate | intros [_ Hx]; discriminate].
  - destruct Hcases as [_ Hinh].
    split; [|intros Hn; exfalso; apply Hn; right; exact Hinh].
    destruct (validateCredentials env) as [[]|e]; simpl.
    + split; [auto | eauto].
    + split; [intros [x Hx]; discriminate | intros [_ Hx]; discriminate].
  - destruct Hcases as [Hn1 Hn2].
    split; [|reflexivity].
    split; [intros [x Hx]; discriminate | intros [[Hx|Hx] _]; contradiction].
Qed.

Definition titanOptions : EmbeddingProviderOptions :=
  {| optModel := "amazon.titan-embed-text-v2:0"; optProviderRegion := None |}.

Lemma createBedrockEmbeddingProvider_succeeds_iff_witness :
  createBedrockEmbeddingProvider {[ "AWS_PROFILE" := "dev" ]}
    (fun _ _ => Ok (NotJson "")) titanOptions
  = createBedrockEmbeddingProvider ∅ (fun _ _ => Ok (NotJson "")) titanOptions.
Proof.
  apply (proj2 (createBedrockEmbeddingProvider_succeeds_iff ∅ (fun _ _ => Ok (NotJson ""))
                  titanOptions)).
  intros [[Hb|[Hb|Hb]]|(name & Hin & Hb)].
  - vm_compute in Hb; discriminate.
  - vm_compute in Hb; discriminate.
  - vm_compute in Hb; discriminate.
  - cbn [In objectPrototypeProperties] in Hin.
    repeat (destruct Hin as [<-|Hin];
            [destruct Hb as [Hb|Hb]; vm_compute in Hb; discriminate|]).
    contradiction.
Defined.

(** The configuration of the one registered model. *)
Definition nova2Config : BedrockModelConfig :=
  {| maxInputChars := 8192;
     defaultDimension := 1024;
     buildRequest := buildNova2Request;
     parseResponse := parseNova2Response |}.

(** What a created provider is made of.  Its model is the normalised model
    string, which the client repeats.  For a model string that names the
    registered model this is the default model id, and a query runs
    [embedSingle] with the registered configuration over the runtime
    client of the resolved region.  For any other model string the id is a
    property inherited by the registry object, and every query fails with
    a [TypeError]. *)
Theorem createBedrockEmbeddingProvider_result
    (env : Env) (createBedrockRuntimeClient : string -> Transport)
    (options : EmbeddingProviderOptions)
    (provider : EmbeddingProvider) (client : BedrockEmbeddingClient) :
  createBedrockEmbeddingProvider env createBedrockRuntimeClient options
    = Ok (provider, client) ->
  id provider = "bedrock" /\
  model provider = normalizeBedrockModel (optModel options) /\
  clientModelId client = model provider /\
  (namesRegisteredModel (optModel options) ->
   model provider = DEFAULT_BEDROCK_EMBEDDING_MODEL /\
   forall text,
     embedQuery provider text
     = embedSingle (createBedrockRuntimeClient (region client))
         DEFAULT_BEDROCK_EMBEDDING_MODEL nova2Config text) /\
  (~ namesRegisteredModel (optModel options) ->
   In (model provider) objectPrototypeProperties /\
   forall text, embedQuery provider text = Throw TypeError) /\
  region client = resolveBedrockRegion env options /\
  region client <> "" /\
  forall texts, embedBatch provider texts = embedAll (embedQuery provider) texts.
Proof.
  pose proof (registryGet_cases (optModel options)) as Hcases.
  unfold createBedrockEmbeddingProvider.
  destruct (registryGet (normalizeBedrockModel (optModel options))) as [cfg| |] eqn:R;
    [| |discriminate].
  - destruct Hcases as [Hreg Hcfg].
    destruct (validateCredentials env) as [[]|e]; simpl; [|discriminate].
    intros [= <- <-]. cbn [id model clientModelId region embedQuery embedBatch].
    assert (normalizeBedrockModel (optModel options) = DEFAULT_BEDROCK_EMBEDDING_MODEL)
      as Hm by (apply normalizeBedrockModel_registered_iff; exact Hreg).
    assert (cfg = nova2Config) as ->.
    { change (Some nova2Config = Some cfg) in Hcfg. injection Hcfg as <-. reflexivity. }
    repeat split.
    + exact Hm.
    + intros text. rewrite Hm. reflexivity.
    + contradiction.
    + contradiction.
    + apply resolveBedrockRegion_nonEmpty.
  - destruct Hcases as [Hn Hinh].
    destruct (validateCredentials env) as [[]|e]; simpl; [|discriminate].
    intros [= <- <-]. cbn [id model clientModelId region embedQuery embedBatch].
    repeat split.
    + contradiction.
    + contradiction.
    + unfold registryGet in R.
      destruct (BEDROCK_MODEL_REGISTRY (normalizeBedrockModel (optModel options)));
        [discriminate|].
      destruct (existsb (String.eqb (normalizeBedrockModel (optModel options)))
                  objectPrototypeProperties) eqn:P; [|discriminate].
      apply existsb_exists in P as (name & Hin & Heq).
      apply String.eqb_eq in Heq. rewrite Heq. exact Hin.
    + apply resolveBedrockRegion_nonEmpty.
Qed.

Definition constructorOptions : EmbeddingProviderOptions :=
  {| optModel := "bedrock/constructor"; optProviderRegion := None |}.

Lemma createBedrockEmbeddingProvider_result_witness :
  exists provider client,
    createBedrockEmbeddingProvider {[ "AWS_BEARER_TOKEN_BEDROCK" := "sso-token" ]}
      (fun _ _ => Ok (NotJson "")) constructorOptions
    = Ok (provider, client) /\
    model provider = "constructor" /\ region client = "us-east-1" /\
    embedQuery provider "hello" = Throw TypeError.
Proof.
  eexists _, _. split; [vm_compute; reflexivity|].
  match goal with
  | |- model ?p = _ /\ region ?c = _ /\ _ =>
      pose proof (createBedrockEmbeddingProvider_result
                    {[ "AWS_BEARER_TOKEN_BEDROCK" := "sso-token" ]}
                    (fun _ _ => Ok (NotJson ""))
                    constructorOptions p c) as Hres
  end.
  destruct Hres as (_ & Hmodel & _ & _ & Hinh & Hregion & _); [vm_compute; reflexivity|].
  split; [exact Hmodel|]. split; [reflexivity|].
  apply Hinh.
  intros [Hb|[Hb|Hb]]; vm_compute in Hb; discriminate.
Defined.

(** A batch succeeds exactly when every text embeds, and then holds the
    vectors of the texts in the order of the texts; a batch that fails,
    fails with the error of one of its texts. *)
Theorem embedBatch_all_or_nothing (f : string -> Exc Json) (texts : list string) :
  (forall vectors,
      embedAll f texts = Ok vectors <-> Forall2 (fun t v => f t = Ok v) texts vectors) /\
  (forall e, embedAll f texts = Throw e -> exists t, In t texts /\ f t = Throw e).
Proof.
  induction texts as [|t rest [IHok IHerr]].
  - split.
    + intros vectors. simpl. split.
      * intros [= <-]. constructor.
      * intros Hv. inversion Hv. reflexivity.
    + intros e. discriminate.
  - split.
    + intros vectors. simpl. destruct (f t) as [v|e] eqn:Ft; simpl.
      * destruct (embedAll f rest) as [vs|e'] eqn:Fr; simpl.
        -- split.
           ++ intros [= <-]. constructor; [exact Ft | apply IHok; reflexivity].
           ++ intros Hv. inversion Hv as [|? w ? ws Hw Hws]; subst.
              apply IHok in Hws. congruence.
        -- split; [discriminate|].
           intros Hv. inversion Hv as [|? w ? ws Hw Hws]; subst.
           apply IHok in Hws. discriminate.
      * split; [discriminate|].
        intros Hv. inversion Hv as [|? w ? ws Hw Hws]; subst. congruence.
    + intros e. simpl. destruct (f t) as [v|e0] eqn:Ft; simpl.
      * destruct (embedAll f rest) as [vs|e'] eqn:Fr; simpl; [discriminate|].
        intros [= <-]. destruct (IHerr e' eq_refl) as (t' & Hin & Ht').
        exists t'. split; [right; exact Hin | exact Ht'].
      * intros [= <-]. exists t. split; [left; reflexivity | exact Ft].
Qed.

(** The one request of [embedQuery] for [text]. *)
Definition requestFor (modelId text : string) : InvokeModelCommand :=
  {| modelId := modelId;
     contentType := "application/json";
     accept := "application/json";
     body := {| schemaVersion := "nova-multimodal-embed-v1";
                taskType := "SINGLE_EMBEDDING";
                singleEmbeddingParams :=
                  {| embeddingPurpose := "GENERIC_INDEX";
                     embeddingDimension := 1024;
                     text := {| truncationMode := "END"; value := text |} |} |} |}.

(** For a registered model, [embedQuery] depends on the transport through
    its answer to one request only, the Nova request for the text at
    dimension 1024; when that request fails, [embedQuery] fails with the
    same error. *)
Theorem embedSingle_single_request
    (client1 client2 : Transport) (modelId : string) (cfg : BedrockModelConfig)
    (text : string) :
  BEDROCK_MODEL_REGISTRY modelId = Some cfg ->
  (client1 (requestFor modelId text) = client2 (requestFor modelId text) ->
   embedSingle client1 modelId cfg text = embedSingle client2 modelId cfg text) /\
  (forall e, client1 (requestFor modelId text) = Throw e ->
             embedSingle client1 modelId cfg text = Throw e).
Proof.
  intros Hreg. unfold BEDROCK_MODEL_REGISTRY in Hreg.
  destruct (String.eqb modelId _); [|discriminate]. injection Hreg as <-.
  unfold embedSingle. cbn [buildRequest defaultDimension parseResponse].
  change {| modelId := modelId; contentType := "application/json";
            accept := "application/json";
            body := buildNova2Request text 1024 |} with (requestFor modelId text).
  split.
  - intros ->. reflexivity.
  - intros e ->. reflexivity.
Qed.

Lemma embedSingle_single_request_witness :
  embedSingle (fun _ => Throw (MkError "socket hang up")) DEFAULT_BEDROCK_EMBEDDING_MODEL
    {| maxInputChars := 8192; defaultDimension := 1024;
       buildRequest := buildNova2Request; parseResponse := parseNova2Response |}
    "hello" = Throw (MkError "socket hang up").
Proof.
  apply (proj2 (embedSingle_single_request
                  (fun _ => Throw (MkError "socket hang up"))
                  (fun _ => Throw (MkError "socket hang up"))
                  DEFAULT_BEDROCK_EMBEDDING_MODEL _ "hello" eq_refl)).
  reflexivity.
Defined.

End EmbeddingsMore.

(** ** Model discovery: configuration, modalities and the provider filter *)

Module DiscoveryMore.
Import JS JSFacts JSMore SortFacts Discovery FilterSpec FetchSpec CacheKeySpec.

#[local] Existing Instance codeUnitOrder_trans.
#[local] Existing Instance codeUnitOrder_antisym.

(** *** The numbers of the configuration *)

Lemma Qfloor_pos_iff q : (0 < Qfloor q)%Z <-> (1 <= q)%Q.
Proof.
  split.
  - intros Hpos. apply Qle_trans with (inject_Z (Qfloor q)); [|apply Qfloor_le].
    change 1%Q with (inject_Z 1). rewrite <- Zle_Qle. lia.
  - intros Hq. apply Qfloor_resp_le in Hq. change (Qfloor 1) with 1%Z in Hq. lia.
Qed.

(** The refresh interval is a whole number of seconds, never negative:
    3600 without configuration, the floor of a configured value of at
    least one second, and zero (no caching) for any configured value below
    one second. *)
Theorem refreshIntervalSecondsOf_range (params : Params) :
  (0 <= refreshIntervalSecondsOf params)%Z /\
  ((forall c, config params = Some c -> refreshInterval c = None) ->
   refreshIntervalSecondsOf params = 3600%Z) /\
  (forall c q, config params = Some c -> refreshInterval c = Some q ->
     ((1 <= q)%Q -> refreshIntervalSecondsOf params = Qfloor q /\
                    (0 < refreshIntervalSecondsOf params)%Z) /\
     (~ (1 <= q)%Q -> refreshIntervalSecondsOf params = 0%Z)).
Proof.
  unfold refreshIntervalSecondsOf. split; [lia|]. split.
  - intros Hnone. destruct (config params) as [c|]; [|reflexivity].
    rewrite (Hnone c eq_refl). reflexivity.
  - intros c q -> ->. rewrite <- Qfloor_pos_iff. lia.
Qed.

Definition halfSecondConfig : BedrockDiscoveryConfig :=
  {| refreshInterval := Some (1 # 2); providerFilter := None;
     defaultContextWindow := Some (-5 # 1); defaultMaxTokens := None |}.

Definition halfSecondParams : Params :=
  {| region := "us-east-1"; config := Some halfSecondConfig;
     now := None; clientFactory := None |}.

Lemma refreshIntervalSecondsOf_range_witness :
  refreshIntervalSecondsOf halfSecondParams = 0%Z.
Proof.
  refine (proj2 (proj2 (proj2 (refreshIntervalSecondsOf_range halfSecondParams))
                   halfSecondConfig (1 # 2) eq_refl eq_refl) _).
  intros Hq. vm_compute in Hq. apply Hq. reflexivity.
Defined.

(** The default context window and the default maximum of tokens are
    positive whole numbers: the floor of a configured value of at least
    one, and the built-in default otherwise. *)
Theorem resolved_defaults_positive (config : option BedrockDiscoveryConfig) :
  (0 < resolveDefaultContextWindow config)%Z /\
  (0 < resolveDefaultMaxTokens config)%Z /\
  (forall c q, config = Some c -> defaultContextWindow c = Some q ->
     resolveDefaultContextWindow config
     = if Qle_bool 1 q then Qfloor q else DEFAULT_CONTEXT_WINDOW) /\
  (forall c q, config = Some c -> defaultMaxTokens c = Some q ->
     resolveDefaultMaxTokens config
     = if Qle_bool 1 q then Qfloor q else DEFAULT_MAX_TOKENS).
Proof.
  assert (forall q d, (if (0 <? Qfloor q)%Z then Qfloor q else d)
                      = if Qle_bool 1 q then Qfloor q else d) as Hfloor.
  { intros q d. destruct (Qle_bool 1 q) eqn:E.
    - apply Qle_bool_iff, Qfloor_pos_iff, Z.ltb_lt in E. rewrite E. reflexivity.
    - destruct (0 <? Qfloor q)%Z eqn:F; [|reflexivity].
      apply Z.ltb_lt, Qfloor_pos_iff, Qle_bool_iff in F. congruence. }
  unfold resolveDefaultContextWindow, resolveDefaultMaxTokens. repeat split.
  - destruct config as [c|]; [destruct (defaultContextWindow c) as [q|]|];
      try reflexivity.
    destruct (0 <? Qfloor q)%Z eqn:F; [apply Z.ltb_lt, F | reflexivity].
  - destruct config as [c|]; [destruct (defaultMaxTokens c) as [q|]|];
      try reflexivity.
    destruct (0 <? Qfloor q)%Z eqn:F; [apply Z.ltb_lt, F | reflexivity].
  - intros c q -> ->. apply Hfloor.
  - intros c q -> ->. apply Hfloor.
Qed.

Lemma resolved_defaults_positive_witness :
  resolveDefaultContextWindow (Some halfSecondConfig) = DEFAULT_CONTEXT_WINDOW.
Proof.
  apply (proj1 (proj2 (proj2 (resolved_defaults_positive (Some halfSecondConfig))))
           halfSecondConfig (-5 # 1) eq_refl eq_refl).
Defined.

(** *** Input modalities *)

(** The summary declares the input modality [kind], up to case. *)
Definition declaresInput (kind : string) (summary : BedrockModelSummary) : Prop :=
  exists m, In m (orDefault (inputModalities summary) []) /\ eqIgnoreCase m kind = true.

Lemma existsb_modalityEqb k l : existsb (modalityEqb k) l = true <-> In k l.
Proof.
  rewrite existsb_exists. split.
  - intros (x & Hx & E). destruct k, x; try discriminate; exact Hx.
  - intros Hk. exists k. split; [exact Hk | destruct k; reflexivity].
Qed.

Lemma setAdd_In k x l : In k (setAdd x l) <-> k = x \/ In k l.
Proof.
  unfold setAdd. destruct (existsb (modalityEqb x) l) eqn:E.
  - apply existsb_modalityEqb in E. split; [auto | intros [->|Hk]; assumption].
  - rewrite in_app_iff. simpl. intuition congruence.
Qed.

Lemma setAdd_NoDup x (l : list Modality) : NoDup l -> NoDup (setAdd x l).
Proof.
  intros Hl. unfold setAdd. destruct (existsb (modalityEqb x) l) eqn:E; [exact Hl|].
  apply NoDup_app. split; [exact Hl|]. split; [|apply NoDup_singleton].
  intros y Hy Hx. apply list_elem_of_In in Hy. apply list_elem_of_In in Hx.
  destruct Hx as [<-|[]].
  apply existsb_modalityEqb in Hy. congruence.
Qed.

(** The loop of [mapInputModalities]. *)
Definition addModality (mapped : list Modality) (modality : string) : list Modality :=
  let lower := toLowerCase modality in
  let mapped := if String.eqb lower "text" then setAdd TextInput mapped else mapped in
  if String.eqb lower "image" then setAdd ImageInput mapped else mapped.

Lemma addModality_fold inputs mapped :
  NoDup mapped ->
  NoDup (fold_left addModality inputs mapped) /\
  (In TextInput (fold_left addModality inputs mapped) <->
   In TextInput mapped \/ exists m, In m inputs /\ eqIgnoreCase m "text" = true) /\
  (In ImageInput (fold_left addModality inputs mapped) <->
   In ImageInput mapped \/ exists m, In m inputs /\ eqIgnoreCase m "image" = true).
Proof.
  revert mapped. induction inputs as [|m inputs IH]; intros mapped Hnd; simpl.
  - split; [exact Hnd|]. split; (split; [auto | intros [?|(m & [] & _)]; assumption]).
  - assert (NoDup (addModality mapped m)) as Hnd'.
    { unfold addModality. destruct (String.eqb _ "text"), (String.eqb _ "image");
        repeat apply setAdd_NoDup; exact Hnd. }
    destruct (IH (addModality mapped m) Hnd') as (H1 & H2 & H3).
    split; [exact H1|].
    assert (In TextInput (addModality mapped m) <->
            In TextInput mapped \/ eqIgnoreCase m "text" = true) as Ht.
    { unfold addModality. rewrite (eqIgnoreCase_lower m "text").
      change (toLowerCase "text") with "text".
      destruct (String.eqb (toLowerCase m) "text") eqn:E1;
        destruct (String.eqb (toLowerCase m) "image") eqn:E2;
        rewrite ?setAdd_In; intuition congruence. }
    assert (In ImageInput (addModality mapped m) <->
            In ImageInput mapped \/ eqIgnoreCase m "image" = true) as Hi.
    { unfold addModality. rewrite (eqIgnoreCase_lower m "image").
      change (toLowerCase "image") with "image".
      destruct (String.eqb (toLowerCase m) "text") eqn:E1;
        destruct (String.eqb (toLowerCase m) "image") eqn:E2;
        rewrite ?setAdd_In; intuition congruence. }
    rewrite H2, H3, Ht, Hi. split.
    + split.
      * intros [[?|?]|(x & Hx & Ex)]; eauto.
      * intros [?|(x & [<-|Hx] & Ex)]; eauto.
    + split.
      * intros [[?|?]|(x & Hx & Ex)]; eauto.
      * intros [?|(x & [<-|Hx] & Ex)]; eauto.
Qed.

(** The input kinds of a definition are never empty and never repeated:
    the image kind is there exactly when the summary declares an image
    input, and the text kind exactly when it declares a text input or
    declares no image input (text is the fallback). *)
Theorem mapInputModalities_kinds (summary : BedrockModelSummary) :
  mapInputModalities summary <> [] /\
  NoDup (mapInputModalities summary) /\
  (In ImageInput (mapInputModalities summary) <-> declaresInput "image" summary) /\
  (In TextInput (mapInputModalities summary) <->
   declaresInput "text" summary \/ ~ declaresInput "image" summary).
Proof.
  unfold declaresInput.
  change (mapInputModalities summary) with
    (match fold_left addModality (orDefault (inputModalities summary) []) [] with
     | [] => setAdd TextInput
               (fold_left addModality (orDefault (inputModalities summary) []) [])
     | _ => fold_left addModality (orDefault (inputModalities summary) []) []
     end).
  destruct (addModality_fold (orDefault (inputModalities summary) []) [] (@NoDup_nil_2 Modality))
    as (Hnd & Ht & Hi).
  destruct (fold_left addModality (orDefault (inputModalities summary) []) [])
    as [|k ks] eqn:E.
  - simpl in Ht, Hi. split; [discriminate|]. split; [apply NoDup_singleton|].
    split.
    + split; [intros [?|[]]; discriminate|].
      intros Hx. exfalso. apply (proj2 Hi). right. exact Hx.
    + split; [|intros _; left; reflexivity].
      intros _. right. intros Hx. apply (proj2 Hi). right. exact Hx.
  - split; [discriminate|]. split; [exact Hnd|].
    destruct Ht as [Ht1 Ht2], Hi as [Hi1 Hi2]. split; [split|split].
    + intros Hk. destruct (Hi1 Hk) as [[]|Hx]. exact Hx.
    + intros Hx. apply Hi2. right. exact Hx.
    + intros Hk. destruct (Ht1 Hk) as [[]|Hx]. left. exact Hx.
    + intros [Hx|Hno]; [apply Ht2; right; exact Hx|].
      destruct k; [left; reflexivity|].
      exfalso. apply Hno. destruct (Hi1 (or_introl eq_refl)) as [[]|Hx]. exact Hx.
Qed.

End DiscoveryMore.

(** ** Model discovery: the normalised provider filter *)

Module FilterMore.
Import JS JSFacts JSMore SortFacts Discovery FilterSpec FetchSpec CacheKeySpec.

#[local] Existing Instance codeUnitOrder_trans.
#[local] Existing Instance codeUnitOrder_antisym.

Lemma toLowerChar_idempotent c : toLowerChar (toLowerChar c) = toLowerChar c.
Proof.
  apply Ascii.eqb_eq.
  apply (forall_ascii (fun c => Ascii.eqb (toLowerChar (toLowerChar c)) (toLowerChar c))).
  vm_compute. reflexivity.
Qed.

Lemma toLowerCase_idempotent s : toLowerCase (toLowerCase s) = toLowerCase s.
Proof.
  unfold toLowerCase. induction s as [|c s IH]; simpl; [reflexivity|].
  rewrite toLowerChar_idempotent, IH. reflexivity.
Qed.

(** A normalised entry is left as it is by normalisation. *)
Lemma normalized_fixed e :
  toLowerCase (trim (toLowerCase (trim e))) = toLowerCase (trim e).
Proof.
  rewrite trim_toLowerCase, trim_idempotent. apply toLowerCase_idempotent.
Qed.

Lemma normalizeProviderFilter_as_entries filter :
  normalizeProviderFilter filter
  = toSorted codeUnitLe (arrayFromSet [] (normalizedEntries (orDefault filter []))).
Proof. destruct filter as [[|e l]|]; reflexivity. Qed.

Lemma elem_of_normalizeProviderFilter x filter :
  x ∈ normalizeProviderFilter filter <->
  exists e, e ∈ orDefault filter [] /\ x = toLowerCase (trim e) /\ x <> "".
Proof.
  rewrite normalizeProviderFilter_as_entries, toSorted_Permutation.
  rewrite elem_of_arrayFromSet, elem_of_normalizedEntries.
  rewrite elem_of_nil. tauto.
Qed.

Lemma NoDup_normalizeProviderFilter filter : NoDup (normalizeProviderFilter filter).
Proof.
  rewrite normalizeProviderFilter_as_entries, toSorted_Permutation.
  apply NoDup_arrayFromSet.
Qed.

Lemma Sorted_normalizeProviderFilter filter :
  Sorted codeUnitOrder (normalizeProviderFilter filter).
Proof.
  rewrite normalizeProviderFilter_as_entries.
  apply (toSorted_Sorted codeUnitLe codeUnitLe_total).
Qed.

(** The normalised filter is a canonical form: it holds exactly the
    entries of the filter trimmed and lower-cased, without the blank ones,
    each once, in ascending order of code units. *)
Theorem normalizeProviderFilter_canonical (filter : option (list string)) :
  Sorted codeUnitOrder (normalizeProviderFilter filter) /\
  NoDup (normalizeProviderFilter filter) /\
  forall x, In x (normalizeProviderFilter filter) <->
            exists e, In e (orDefault filter []) /\ x = toLowerCase (trim e) /\ x <> "".
Proof.
  split; [apply Sorted_normalizeProviderFilter|].
  split; [apply NoDup_normalizeProviderFilter|].
  intros x. rewrite <- list_elem_of_In, elem_of_normalizeProviderFilter.
  split; intros (e & He & Hx); exists e; (split; [apply list_elem_of_In; exact He | exact Hx]).
Qed.

(** Normalising a filter that is already normalised changes nothing. *)
Theorem normalizeProviderFilter_idempotent (filter : option (list string)) :
  normalizeProviderFilter (Some (normalizeProviderFilter filter))
  = normalizeProviderFilter filter.
Proof.
  apply (Sorted_unique codeUnitOrder);
    try apply Sorted_normalizeProviderFilter.
  apply NoDup_Permutation; try apply NoDup_normalizeProviderFilter.
  intros x. rewrite (elem_of_normalizeProviderFilter x (Some _)). simpl. split.
  - intros (e & He & -> & Hne).
    apply elem_of_normalizeProviderFilter in He as (e0 & He0 & -> & Hne0).
    rewrite normalized_fixed. apply elem_of_normalizeProviderFilter. eauto.
  - intros Hx. exists x. split; [exact Hx|].
    apply elem_of_normalizeProviderFilter in Hx as (e0 & He0 & -> & Hne0).
    rewrite normalized_fixed. auto.
Qed.

(** The filter names the provider [p]: one of its entries equals [p] up
    to case and surrounding white space. *)
Definition filterNames (filter : option (list string)) (p : string) : Prop :=
  exists e, In e (orDefault filter []) /\ eqIgnoreCase (trim e) (trim p) = true.

Lemma normalizeProviderFilter_nil_iff filter :
  normalizeProviderFilter filter = [] <->
  forall e, In e (orDefault filter []) -> isBlank e = true.
Proof.
  split.
  - intros Hnil e He. apply isBlank_lower_trim.
    destruct (toLowerCase (trim e)) as [|c r] eqn:E; [reflexivity|].
    assert (String c r ∈ normalizeProviderFilter filter) as Hin.
    { apply elem_of_normalizeProviderFilter. exists e.
      split; [apply list_elem_of_In; exact He|]. split; [congruence | discriminate]. }
    rewrite Hnil in Hin. apply elem_of_nil in Hin. contradiction.
  - intros Hall. destruct (normalizeProviderFilter filter) as [|x l] eqn:E; [reflexivity|].
    assert (x ∈ normalizeProviderFilter filter) as Hin by (rewrite E; left).
    apply elem_of_normalizeProviderFilter in Hin as (e & He & -> & Hne).
    exfalso. apply Hne. apply isBlank_lower_trim, Hall, list_elem_of_In, He.
Qed.

(** Under the normalised filter, a summary with a provider name passes
    exactly when the filter has only blank entries (or none), or the
    provider name is not blank and the filter names it up to case and
    surrounding white space. *)
Theorem matchesProviderFilter_normalized
    (summary : BedrockModelSummary) (filter : option (list string)) (p : string) :
  providerName summary = Some p ->
  (matchesProviderFilter summary (normalizeProviderFilter filter) = true <->
   (forall e, In e (orDefault filter []) -> isBlank e = true) \/
   (isBlank p = false /\ filterNames filter p)).
Proof.
  intros Hp. rewrite <- normalizeProviderFilter_nil_iff.
  unfold matchesProviderFilter. rewrite Hp.
  destruct (normalizeProviderFilter filter) as [|x l] eqn:E; [tauto|].
  rewrite <- E.
  assert (truthy (toLowerCase (trim p)) = negb (isBlank p)) as Htruthy.
  { destruct (isBlank p) eqn:B.
    - apply isBlank_lower_trim in B. rewrite B. reflexivity.
    - destruct (toLowerCase (trim p)) eqn:L; [|reflexivity].
      apply isBlank_lower_trim in L. congruence. }
  rewrite Htruthy, negb_involutive.
  destruct (isBlank p) eqn:B.
  - split; [discriminate|]. intros [Hnil|[Hb _]]; [congruence | discriminate].
  - rewrite arrayIncludes_In, <- list_elem_of_In, elem_of_normalizeProviderFilter.
    split.
    + intros (e & He & Heq & Hne). right. split; [reflexivity|].
      exists e. split; [apply list_elem_of_In; exact He|].
      rewrite eqIgnoreCase_lower. apply String.eqb_eq. congruence.
    + intros [Hnil|[_ (e & He & Heq)]]; [congruence|].
      rewrite eqIgnoreCase_lower in Heq. apply String.eqb_eq in Heq.
      exists e. split; [apply list_elem_of_In; exact He|]. split; [congruence|].
      intros L. apply isBlank_lower_trim in L. congruence.
Qed.

Lemma matchesProviderFilter_normalized_witness :
  matchesProviderFilter Scenarios.claudeSummary
    (normalizeProviderFilter (Some [" ANTHROPIC "; "amazon"])) = true.
Proof.
  apply (proj2 (matchesProviderFilter_normalized Scenarios.claudeSummary
                  (Some [" ANTHROPIC "; "amazon"]) "Anthropic" eq_refl)).
  right. split; [reflexivity|].
  exists " ANTHROPIC ". split; [left; reflexivity | reflexivity].
Defined.

End FilterMore.

(** ** Model discovery: the inference-profile map *)

Module ProfileMapMore.
Import JS JSFacts JSMore SortFacts Discovery FilterSpec FetchSpec.

(** *** Searching a string *)

(** [p] occurs in [s] after [a] and before [b], and nowhere earlier. *)
Definition firstOccurrence (p s a b : string) : Prop :=
  s = a ++ p ++ b /\
  forall a' b', s = a' ++ p ++ b' -> String.length a <= String.length a'.

Lemma indexOf_unfold p s :
  indexOf p s =
  if String.prefix p s then 0%Z
  else match s with
       | EmptyString => (-1)%Z
       | String _ r => if (indexOf p r <? 0)%Z then (-1)%Z else (indexOf p r + 1)%Z
       end.
Proof. destruct s; reflexivity. Qed.

Lemma prefix_occurrence p b : String.prefix p (p ++ b) = true.
Proof. apply prefix_append. Qed.

Lemma indexOf_range p s : (-1 <= indexOf p s)%Z.
Proof.
  induction s as [|c r IH]; rewrite indexOf_unfold;
    destruct (String.prefix p _); try lia.
  destruct (indexOf p r <? 0)%Z eqn:E; lia.
Qed.

Lemma indexOf_absent p s :
  (indexOf p s < 0)%Z -> forall a b, s <> a ++ p ++ b.
Proof.
  induction s as [|c r IH]; rewrite indexOf_unfold; intros Hi a b Hs.
  - destruct a as [|x a]; [|discriminate].
    pose proof (prefix_occurrence p b) as P.
      change ("" ++ p ++ b) with (p ++ b) in Hs. rewrite <- Hs in P.
    rewrite P in Hi. lia.
  - destruct a as [|x a].
    + pose proof (prefix_occurrence p b) as P.
      change ("" ++ p ++ b) with (p ++ b) in Hs. rewrite <- Hs in P.
      rewrite P in Hi. lia.
    + rewrite append_cons in Hs. injection Hs as -> Hr.
      destruct (String.prefix p (String x r)); [lia|].
      destruct (indexOf p r <? 0)%Z eqn:E.
      * apply Z.ltb_lt in E. exact (IH E a b Hr).
      * apply Z.ltb_ge in E. lia.
Qed.

Lemma indexOf_present p s :
  (0 <= indexOf p s)%Z ->
  exists a b, firstOccurrence p s a b /\ indexOf p s = Z.of_nat (String.length a).
Proof.
  induction s as [|c r IH]; rewrite indexOf_unfold.
  - destruct (String.prefix p "") eqn:P; [|lia]. intros _.
    exists "", (slice (String.length p) "").
    split; [|reflexivity]. split; [apply (prefix_slice p "" P)|].
    intros a' b' _. simpl. lia.
  - destruct (String.prefix p (String c r)) eqn:P.
    + intros _. exists "", (slice (String.length p) (String c r)).
      split; [|reflexivity]. split; [apply (prefix_slice _ _ P)|].
      intros a' b' _. simpl. lia.
    + destruct (indexOf p r <? 0)%Z eqn:E; [lia|]. intros _.
      apply Z.ltb_ge in E. destruct (IH E) as (a & b & [Hs Hmin] & Hi).
      exists (String c a), b. split.
      * split; [rewrite append_cons, <- Hs; reflexivity|].
        intros [|x a'] b' Hs'.
        -- pose proof (prefix_occurrence p b') as P'.
           change ("" ++ p ++ b') with (p ++ b') in Hs'.
           rewrite <- Hs' in P'. congruence.
        -- rewrite append_cons in Hs'. injection Hs' as -> Hr.
           simpl. apply le_n_S. exact (Hmin a' b' Hr).
      * rewrite Hi. simpl String.length. lia.
Qed.

Lemma append_same_length a b a' b' :
  a ++ b = a' ++ b' -> String.length a = String.length a' -> a = a' /\ b = b'.
Proof.
  revert a'. induction a as [|x a IH]; intros [|y a']; simpl; try discriminate.
  - auto.
  - intros [= -> Hr] [= Hl]. destruct (IH a' Hr Hl) as [-> ->]. auto.
Qed.

(** [indexOf] finds the first occurrence, and [-1] when there is none. *)
Lemma indexOf_firstOccurrence p s a b :
  firstOccurrence p s a b -> indexOf p s = Z.of_nat (String.length a).
Proof.
  intros [Hs Hmin].
  destruct (Z.ltb_spec (indexOf p s) 0) as [Hneg|Hpos].
  - exfalso. exact (indexOf_absent p s Hneg a b Hs).
  - destruct (indexOf_present p s Hpos) as (a0 & b0 & [Hs0 Hmin0] & ->).
    f_equal. apply Nat.le_antisymm; [exact (Hmin0 a b Hs) | exact (Hmin a0 b0 Hs0)].
Qed.

Lemma slice_add n p s :
  slice (n + String.length p) s = slice (String.length p) (slice n s).
Proof.
  revert s. induction n as [|n IH]; intros s; [reflexivity|].
  destruct s as [|c r]; simpl; [destruct (String.length p); reflexivity | apply IH].
Qed.

Lemma slice_after_occurrence p a b :
  slice (String.length a + String.length p) (a ++ p ++ b) = b.
Proof. rewrite slice_add, slice_append, slice_append. reflexivity. Qed.

(** *** One model reference *)

(** What [recordModelRef] does with an ARN: nothing when the marker does
    not occur in it; otherwise it maps what follows the first marker,
    trimmed, to the profile id, unless that is blank. *)
Lemma recordModelRef_arn profileId mapping modelRef arn :
  orDefault (modelArn modelRef) "" = arn ->
  ((forall a b, arn <> a ++ foundationModelMarker ++ b) ->
   recordModelRef profileId mapping modelRef = mapping) /\
  (forall a b, firstOccurrence foundationModelMarker arn a b ->
     recordModelRef profileId mapping modelRef
     = if isBlank b then mapping else <[trim b := profileId]> mapping).
Proof.
  intros Harn. unfold recordModelRef. rewrite Harn. split.
  - intros Hno. destruct (Z.leb_spec 0 (indexOf foundationModelMarker arn)) as [Hpos|Hneg];
      [|reflexivity].
    destruct (indexOf_present _ _ Hpos) as (a & b & [Hs _] & _).
    exfalso. exact (Hno a b Hs).
  - intros a b Hocc. rewrite (indexOf_firstOccurrence _ _ _ _ Hocc).
    destruct Hocc as [Hs _].
    rewrite (proj2 (Z.leb_le 0 _) (Nat2Z.is_nonneg _)), Nat2Z.id.
    assert (slice (String.length a + String.length foundationModelMarker) arn = b)
      as -> by (rewrite Hs; apply slice_after_occurrence).
    destruct (isBlank b) eqn:B.
    + apply trim_empty_iff in B. rewrite B. reflexivity.
    + apply truthy_trim_iff in B. rewrite B. reflexivity.
Qed.

(** A model reference is recorded by its ARN: nothing is recorded when
    the marker does not occur in the ARN (or there is no ARN); otherwise
    what follows the first marker, trimmed, is mapped to the profile id,
    unless it is blank. *)
Theorem recordModelRef_first_marker
    (profileId : string) (mapping : gmap string string)
    (modelRef : InferenceProfileModel) (arn : string) :
  orDefault (modelArn modelRef) "" = arn ->
  ((forall a b, arn <> a ++ foundationModelMarker ++ b) ->
   recordModelRef profileId mapping modelRef = mapping) /\
  (forall a b, firstOccurrence foundationModelMarker arn a b ->
     recordModelRef profileId mapping modelRef
     = if isBlank b then mapping else <[trim b := profileId]> mapping).
Proof. apply recordModelRef_arn. Qed.

Lemma firstOccurrence_intro p s a b :
  s = a ++ p ++ b -> indexOf p s = Z.of_nat (String.length a) -> firstOccurrence p s a b.
Proof.
  intros Hs Hi. split; [exact Hs|]. intros a' b' Hs'.
  destruct (indexOf_present p s) as (a0 & b0 & [Hs0 Hmin0] & Hi0); [rewrite Hi; lia|].
  assert (String.length a0 = String.length a) as <- by lia.
  exact (Hmin0 a' b' Hs').
Qed.

(** The model reference names the base model [base]: its ARN holds the
    marker, and what follows the first marker trims to [base], which is
    not empty. *)
Definition refersTo (modelRef : InferenceProfileModel) (base : string) : Prop :=
  exists a b,
    firstOccurrence foundationModelMarker (orDefault (modelArn modelRef) "") a b /\
    trim b = base /\ base <> "".

Lemma recordModelRef_sets profileId mapping modelRef base :
  refersTo modelRef base ->
  recordModelRef profileId mapping modelRef !! base = Some profileId.
Proof.
  intros (a & b & Hocc & Hb & Hne).
  rewrite (proj2 (recordModelRef_arn profileId mapping modelRef _ eq_refl) a b Hocc).
  destruct (isBlank b) eqn:B.
  - apply trim_empty_iff in B. congruence.
  - rewrite Hb. apply lookup_insert_eq.
Qed.

Lemma recordModelRef_other profileId mapping modelRef base :
  ~ refersTo modelRef base ->
  recordModelRef profileId mapping modelRef !! base = mapping !! base.
Proof.
  intros Hno.
  destruct (Z.ltb_spec (indexOf foundationModelMarker (orDefault (modelArn modelRef) "")) 0)
    as [Hneg|Hpos].
  - rewrite (proj1 (recordModelRef_arn profileId mapping modelRef _ eq_refl));
      [reflexivity | apply indexOf_absent, Hneg].
  - destruct (indexOf_present _ _ Hpos) as (a & b & Hocc & _).
    rewrite (proj2 (recordModelRef_arn profileId mapping modelRef _ eq_refl) a b Hocc).
    destruct (isBlank b) eqn:B; [reflexivity|].
    apply lookup_insert_ne. intros Hb. apply Hno. exists a, b.
    split; [exact Hocc|]. split; [exact Hb|].
    intros ->. apply trim_empty_iff in Hb. congruence.
Qed.

Lemma recordModelRef_same profileId mapping modelRef base :
  mapping !! base = Some profileId ->
  recordModelRef profileId mapping modelRef !! base = Some profileId.
Proof.
  intros Hm. unfold recordModelRef.
  destruct (0 <=? _)%Z; [|exact Hm]. destruct (truthy _); [|exact Hm].
  rewrite lookup_insert. case_decide; [reflexivity | exact Hm].
Qed.

(** The profile lists a model reference that names [base]. *)
Definition references (profile : InferenceProfileSummary) (base : string) : Prop :=
  exists modelRef, In modelRef (orDefault (models profile) []) /\ refersTo modelRef base.

Lemma fold_recordModelRef_other profileId refs mapping base :
  (forall r, In r refs -> ~ refersTo r base) ->
  fold_left (recordModelRef profileId) refs mapping !! base = mapping !! base.
Proof.
  revert mapping. induction refs as [|r refs IH]; intros mapping Hno; [reflexivity|].
  simpl. rewrite IH by (intros r' Hr'; apply Hno; right; exact Hr').
  apply recordModelRef_other, Hno. left. reflexivity.
Qed.

Lemma fold_recordModelRef_sets profileId refs mapping base :
  mapping !! base = Some profileId \/ (exists r, In r refs /\ refersTo r base) ->
  fold_left (recordModelRef profileId) refs mapping !! base = Some profileId.
Proof.
  revert mapping. induction refs as [|r refs IH]; intros mapping Hor; simpl.
  - destruct Hor as [Hm|(r & [] & _)]. exact Hm.
  - apply IH. destruct Hor as [Hm|(r' & [<-|Hin] & Hr')].
    + left. apply recordModelRef_same, Hm.
    + left. apply recordModelRef_sets, Hr'.
    + right. eauto.
Qed.

Lemma recordProfile_other mapping profile base :
  ~ references profile base -> recordProfile mapping profile !! base = mapping !! base.
Proof.
  intros Hno. unfold recordProfile.
  destruct (inferenceProfileId profile) as [raw|]; [|reflexivity].
  destruct (negb (truthy (trim raw))); [reflexivity|].
  apply fold_recordModelRef_other. intros r Hr Hrefers. apply Hno. exists r. auto.
Qed.

Lemma recordProfile_sets mapping profile raw base :
  inferenceProfileId profile = Some raw -> isBlank raw = false ->
  references profile base ->
  recordProfile mapping profile !! base = Some (trim raw).
Proof.
  intros Hid Hraw Href. unfold recordProfile. rewrite Hid.
  rewrite (proj2 (truthy_trim_iff raw) Hraw). simpl negb. cbv iota.
  apply fold_recordModelRef_sets. right. exact Href.
Qed.

(** The profiles of a list of pages, in the order they are recorded. *)
Definition profilesOf (pages : list ListInferenceProfilesOutput)
  : list InferenceProfileSummary :=
  List.concat (List.map (fun page => orDefault (inferenceProfileSummaries page) []) pages).

Lemma fold_recordPage_profiles pages mapping :
  fold_left recordPage pages mapping = fold_left recordProfile (profilesOf pages) mapping.
Proof.
  revert mapping. induction pages as [|page pages IH]; intros mapping; [reflexivity|].
  unfold profilesOf. simpl. rewrite fold_left_app. apply IH.
Qed.

(** When several profiles reference one base model, the one recorded last
    gives the base model its profile id. *)
Theorem later_profile_overrides
    (pages : list ListInferenceProfilesOutput) (mapping : gmap string string)
    (earlier later : list InferenceProfileSummary) (profile : InferenceProfileSummary)
    (raw base : string) :
  profilesOf pages = (earlier ++ profile :: later)%list ->
  inferenceProfileId profile = Some raw ->
  isBlank raw = false ->
  references profile base ->
  (forall q, In q later -> ~ references q base) ->
  fold_left recordPage pages mapping !! base = Some (trim raw).
Proof.
  intros Hpages Hid Hraw Href Hlater.
  assert (forall l m,
             (forall q, In q l -> ~ references q base) ->
             m !! base = Some (trim raw) ->
             fold_left recordProfile l m !! base = Some (trim raw)) as Hkeep.
  { induction l as [|q l IH]; intros m Hl Hm; [exact Hm|].
    simpl. apply IH.
    - intros q' Hq'. apply Hl. right. exact Hq'.
    - rewrite recordProfile_other; [exact Hm|]. apply Hl. left. reflexivity. }
  rewrite fold_recordPage_profiles, Hpages, fold_left_app. simpl.
  apply Hkeep; [exact Hlater|].
  apply recordProfile_sets; assumption.
Qed.

(** *** The entries of the map *)

Definition wellFormedId (s : string) : Prop :=
  s <> "" /\ noSurroundingWhiteSpace s = true.

Definition wellFormedMap (m : gmap string string) : Prop :=
  forall k v, m !! k = Some v -> wellFormedId k /\ wellFormedId v.

Lemma wellFormedId_trim s : truthy (trim s) = true -> wellFormedId (trim s).
Proof.
  intros Ht. split; [|apply noSurroundingWhiteSpace_trim].
  destruct (trim s); [discriminate | congruence].
Qed.

Lemma recordModelRef_wellFormed profileId m modelRef :
  wellFormedId profileId -> wellFormedMap m ->
  wellFormedMap (recordModelRef profileId m modelRef).
Proof.
  intros Hp Hm. unfold recordModelRef.
  destruct (0 <=? _)%Z; [|exact Hm].
  destruct (truthy _) eqn:T; [|exact Hm].
  intros k v. rewrite lookup_insert. case_decide.
  - intros [= <-]. subst k. split; [apply wellFormedId_trim, T | exact Hp].
  - apply Hm.
Qed.

Lemma recordPage_wellFormed m page : wellFormedMap m -> wellFormedMap (recordPage m page).
Proof.
  intros Hm. unfold recordPage. apply fold_left_invariant; [|exact Hm].
  clear m Hm. intros m profile Hm. unfold recordProfile.
  destruct (inferenceProfileId profile) as [raw|]; [|exact Hm].
  destruct (truthy (trim raw)) eqn:T; simpl; [|exact Hm].
  apply fold_left_invariant; [|exact Hm].
  intros m' r. apply recordModelRef_wellFormed, wellFormedId_trim, T.
Qed.

(** Every key and every value of the inference-profile map is a non-empty
    string without white space at its ends. *)
Theorem buildInferenceProfileMap_entries
    (client : BedrockClient) (profileMap : gmap string string) (k v : string) :
  buildInferenceProfileMap client = Some profileMap ->
  profileMap !! k = Some v ->
  (k <> "" /\ noSurroundingWhiteSpace k = true) /\
  (v <> "" /\ noSurroundingWhiteSpace v = true).
Proof.
  unfold buildInferenceProfileMap. intros Hbuild.
  assert (wellFormedMap profileMap) as Hwf; [|apply Hwf].
  assert (wellFormedMap ∅) as Hempty by (intros ? ?; rewrite lookup_empty; discriminate).
  revert Hbuild Hempty. generalize (∅ : gmap string string).
  induction (listInferenceProfiles client) as [|[page|e] answers IH]; simpl; intros m.
  - discriminate.
  - destruct (hasNextPage page).
    + intros Hr Hm. eapply IH; [exact Hr|]. apply recordPage_wellFormed, Hm.
    + intros [= <-] Hm. apply recordPage_wellFormed, Hm.
  - intros [= <-] Hm. exact Hm.
Qed.

(** *** Pagination *)

Lemma profilePages_complete pages last rest m :
  Forall (fun page => hasNextPage page = true) pages ->
  hasNextPage last = false ->
  profilePages (List.map Ok pages ++ Ok last :: rest) m
  = Some (fold_left recordPage (pages ++ [last]) m).
Proof.
  intros Hall Hlast. revert m. induction Hall as [|page pages Hp _ IH]; intros m; simpl.
  - rewrite Hlast. reflexivity.
  - rewrite Hp. apply IH.
Qed.

(** The pagination records every page up to the first one that carries no
    continuation token (an empty token counts as none), and requests
    nothing after it. *)
Theorem buildInferenceProfileMap_pagination
    (client : BedrockClient) (pages : list ListInferenceProfilesOutput)
    (last : ListInferenceProfilesOutput) (rest : list (Exc ListInferenceProfilesOutput)) :
  Forall (fun page => exists token, nextToken page = Some token /\ token <> "") pages ->
  nextToken last = None \/ nextToken last = Some "" ->
  listInferenceProfiles client = (List.map Ok pages ++ Ok last :: rest)%list ->
  buildInferenceProfileMap client = Some (fold_left recordPage (pages ++ [last]) ∅).
Proof.
  intros Hpages Hlast Hanswers. unfold buildInferenceProfileMap. rewrite Hanswers.
  apply profilePages_complete.
  - eapply Forall_impl; [exact Hpages|]. intros page (token & Ht & Hne).
    unfold hasNextPage. rewrite Ht. apply truthy_nonempty, Hne.
  - unfold hasNextPage. destruct Hlast as [->| ->]; reflexivity.
Qed.

End ProfileMapMore.

(** ** Model discovery: the reasoning flag *)

Module ReasoningMore.
Import JS JSFacts JSMore Discovery ProfileMapMore.

(** [word] occurs in [s]. *)
Definition occurs (word s : string) : Prop := exists x y, s = x ++ word ++ y.

Lemma includes_occurs word s : includes word s = true <-> occurs word s.
Proof.
  unfold includes, occurs. rewrite Z.leb_le. split.
  - intros Hpos. destruct (indexOf_present _ _ Hpos) as (a & b & [Hs _] & _). eauto.
  - intros (x & y & Hs).
    destruct (Z.ltb_spec (indexOf word s) 0) as [Hneg|Hge]; [|exact Hge].
    exfalso. exact (indexOf_absent _ _ Hneg x y Hs).
Qed.

Lemma mapChars_append f a b : mapChars f (a ++ b) = mapChars f a ++ mapChars f b.
Proof.
  induction a as [|c a IH]; [reflexivity|].
  rewrite append_cons. simpl. rewrite IH, append_cons. reflexivity.
Qed.

(** A word at the head of [a ++ c :: b] lies within [a], unless it holds
    the character [c]. *)
Lemma head_word_split word y a c b :
  word ++ y = a ++ String c b ->
  (exists y', a = word ++ y') \/ occursIn c word = true.
Proof.
  revert a. induction word as [|w word IH]; intros a Hs.
  - left. exists a. reflexivity.
  - destruct a as [|x a].
    + rewrite append_cons in Hs. change ("" ++ String c b) with (String c b) in Hs.
      injection Hs as -> _. right. simpl. rewrite Ascii.eqb_refl. reflexivity.
    + rewrite !append_cons in Hs. injection Hs as -> Hrest.
      destruct (IH a Hrest) as [[y' ->]|Hocc].
      * left. exists y'. rewrite append_cons. reflexivity.
      * right. simpl. rewrite Hocc. apply orb_true_r.
Qed.

(** A word without the character [c] that occurs in [a ++ c :: b] occurs
    in [a] or in [b]. *)
Lemma occurs_split word a c b :
  occursIn c word = false ->
  occurs word (a ++ String c b) <-> occurs word a \/ occurs word b.
Proof.
  intros Hc. split.
  - intros (x & y & Hs). revert a Hs.
    induction x as [|h x IH]; intros a Hs.
    + change ("" ++ word ++ y) with (word ++ y) in Hs. symmetry in Hs.
      destruct (head_word_split word y a c b Hs) as [[y' ->]|Hocc]; [|congruence].
      left. exists "", y'. reflexivity.
    + destruct a as [|h' a].
      * change ("" ++ String c b) with (String c b) in Hs.
        rewrite append_cons in Hs. injection Hs as _ ->. right. exists x, y. reflexivity.
      * rewrite !append_cons in Hs. injection Hs as <- Hrest.
        destruct (IH a Hrest) as [(x' & y' & ->)|Hb]; [|right; exact Hb].
        left. exists (String h' x'), y'. rewrite append_cons. reflexivity.
  - intros [(x & y & ->)|(x & y & ->)].
    + exists x, (y ++ String c b). rewrite !append_assoc. reflexivity.
    + exists (a ++ String c x), y. rewrite !append_assoc. reflexivity.
Qed.

(** The text [s] holds [word], whatever the case of the letters of [s]. *)
Definition mentions (word : string) (s : option string) : Prop :=
  occurs word (toLowerCase (orDefault s "")).

(** The reasoning flag is set exactly when the model id or the model name
    holds the word "reasoning" or the word "thinking", up to case. *)
Theorem inferReasoningSupport_iff (summary : BedrockModelSummary) :
  inferReasoningSupport summary = true <->
  mentions "reasoning" (modelId summary) \/ mentions "reasoning" (modelName summary) \/
  mentions "thinking" (modelId summary) \/ mentions "thinking" (modelName summary).
Proof.
  unfold inferReasoningSupport, mentions. cbv zeta.
  rewrite orb_true_iff, !includes_occurs.
  unfold toLowerCase. rewrite !mapChars_append.
  change (mapChars toLowerChar " " ++ mapChars toLowerChar (orDefault (modelName summary) ""))
    with (String " "%char (mapChars toLowerChar (orDefault (modelName summary) ""))).
  rewrite (occurs_split "reasoning" _ " "%char _ eq_refl).
  rewrite (occurs_split "thinking" _ " "%char _ eq_refl).
  tauto.
Qed.

End ReasoningMore.

(** ** Model discovery: the list of definitions *)

Module ResultMore.
Import JS JSFacts JSMore SortFacts Discovery FilterSpec FetchSpec.

Lemma Sorted_weaken {A} (R1 R2 : A -> A -> Prop) (l : list A) :
  (forall a b, R1 a b -> R2 a b) -> Sorted R1 l -> Sorted R2 l.
Proof.
  intros Himpl. induction 1 as [|x l Hl IH Hx]; constructor; [exact IH|].
  destruct Hx; constructor. apply Himpl. assumption.
Qed.

Lemma included_baseId_nonEmpty summary filter :
  shouldIncludeSummary summary filter = true -> baseIdOf summary <> "".
Proof.
  unfold shouldIncludeSummary, lacksModelId, baseIdOf.
  destruct (modelId summary) as [mid|]; [|discriminate].
  destruct (truthy (trim mid)) eqn:T; [|discriminate].
  intros _. apply truthy_true_iff, T.
Qed.

(** A definition as discovery makes them. *)
Definition wellFormedDefinition (defaults : Defaults) (d : ModelDefinitionConfig) : Prop :=
  id d <> "" /\ name d <> "" /\
  contextWindow d = defContextWindow defaults /\
  maxTokens d = defMaxTokens defaults /\
  cost d = DEFAULT_COST.

Lemma toModelDefinition_wellFormed summary defaults profileId :
  orDefault profileId (baseIdOf summary) <> "" ->
  wellFormedDefinition defaults (toModelDefinition summary defaults profileId).
Proof.
  intros Hid. unfold wellFormedDefinition, toModelDefinition. simpl.
  split; [exact Hid|]. split; [|auto].
  destruct (modelName summary) as [n|]; [|exact Hid].
  destruct (truthy (trim n)) eqn:T; [apply truthy_true_iff, T | exact Hid].
Qed.

Lemma visitSummaries_wellFormed filter defaults profileMap summaries :
  profileIdsNonEmpty profileMap ->
  Forall (wellFormedDefinition defaults)
    (discovered (visitSummaries filter defaults profileMap summaries)).
Proof.
  intros Hmap. unfold visitSummaries.
  apply (fold_left_invariant
           (fun st => Forall (wellFormedDefinition defaults) (discovered st))).
  - intros st summary Hst.
    destruct (shouldIncludeSummary summary filter) eqn:E.
    + destruct (visitSummary_included filter defaults profileMap st summary E) as [-> _].
      apply Forall_app. split; [exact Hst|].
      pose proof (included_baseId_nonEmpty summary filter E) as Hbase.
      unfold emitted. destruct (profileMap !! baseIdOf summary) as [pid|] eqn:P.
      * constructor; [apply toModelDefinition_wellFormed; exact (Hmap _ _ P)|].
        destruct (_ && _); constructor; [|constructor].
        apply toModelDefinition_wellFormed, Hbase.
      * constructor; [|constructor]. apply toModelDefinition_wellFormed, Hbase.
    + rewrite visitSummary_excluded by exact E. exact Hst.
  - constructor.
Qed.

(** The ids the loop has emitted are the base ids of the included
    summaries and the profile ids the map gives them. *)
Lemma visitSummaries_ids filter defaults profileMap summaries x :
  profileIdsNonEmpty profileMap ->
  x ∈ idsOf (discovered (visitSummaries filter defaults profileMap summaries)) <->
  exists s, In s summaries /\ shouldIncludeSummary s filter = true /\
            (x = baseIdOf s \/ profileMap !! baseIdOf s = Some x).
Proof.
  intros Hmap. induction summaries as [|s summaries IH] using rev_ind.
  - split; [intros Hx; apply elem_of_idsOf in Hx as (d & [] & _) | intros (s & [] & _)].
  - rewrite visitSummaries_snoc.
    assert ((exists s0, In s0 (summaries ++ [s]) /\ shouldIncludeSummary s0 filter = true /\
                        (x = baseIdOf s0 \/ profileMap !! baseIdOf s0 = Some x)) <->
            (x ∈ idsOf (discovered (visitSummaries filter defaults profileMap summaries)) \/
             (shouldIncludeSummary s filter = true /\
              (x = baseIdOf s \/ profileMap !! baseIdOf s = Some x)))) as ->.
    { rewrite IH. split.
      - intros (s0 & Hin & Hrest). apply in_app_iff in Hin as [Hin|[<-|[]]]; eauto.
      - intros [(s0 & Hin & Hrest)|Hrest].
        + exists s0. split; [apply in_app_iff; left; exact Hin | exact Hrest].
        + exists s. split; [apply in_app_iff; right; left; reflexivity | exact Hrest]. }
    destruct (shouldIncludeSummary s filter) eqn:E.
    + destruct (visitSummary_included filter defaults profileMap
                  (visitSummaries filter defaults profileMap summaries) s E) as [-> _].
      rewrite idsOf_app, elem_of_union, visitSummaries_registeredIds.
      set (before := idsOf (discovered (visitSummaries filter defaults profileMap summaries))).
      unfold emitted. destruct (profileMap !! baseIdOf s) as [pid|] eqn:P.
      * rewrite (truthy_nonempty pid (Hmap _ _ P)). cbn [andb].
        destruct (bool_decide (baseIdOf s ∈ before ∪ {[pid]})) eqn:D; cbn [negb].
        -- apply bool_decide_eq_true in D. apply elem_of_union in D.
           unfold idsOf. simpl. rewrite elem_of_union, elem_of_singleton, elem_of_empty.
           split.
           ++ intros [Hx|[->|[]]]; [left; exact Hx|]. right. split; [reflexivity|].
              right. reflexivity.
           ++ intros [Hx|[_ [->|[= ->]]]]; [left; exact Hx | | right; left; reflexivity].
              destruct D as [D|D%elem_of_singleton]; [left; exact D|].
              right. left. exact D.
        -- unfold idsOf. simpl.
           rewrite !elem_of_union, !elem_of_singleton, elem_of_empty.
           split.
           ++ intros [Hx|[->|[->|[]]]]; [left; exact Hx | |]; right;
                (split; [reflexivity|]); [right | left]; reflexivity.
           ++ intros [Hx|[_ [->|[= ->]]]]; [left; exact Hx | |];
                right; [right; left | left]; reflexivity.
      * unfold idsOf. simpl. rewrite elem_of_union, elem_of_singleton, elem_of_empty.
        split.
        -- intros [Hx|[->|[]]]; [left; exact Hx|]. right. split; [reflexivity|].
           left. reflexivity.
        -- intros [Hx|[_ [->|Hx]]]; [left; exact Hx | right; left; reflexivity | discriminate].
    + rewrite visitSummary_excluded by exact E. split; [auto|].
      intros [Hx|[Hx _]]; [exact Hx | discriminate].
Qed.

Section WithHost.
Context `{Host}.

(** The names of two definitions are in order. *)
Definition nameOrder (a b : ModelDefinitionConfig) : Prop :=
  (localeCompare (name a) (name b) <= 0)%Z.

(** Whenever the comparison of names is total, the list discovery returns
    is in ascending order of names. *)
Theorem processListing_sorted_by_name
    (providerFilter : list string) (defaults : Defaults)
    (response : ListFoundationModelsOutput) (profileMap : gmap string string) :
  (forall a b : string, (localeCompare a b <= 0)%Z \/ (localeCompare b a <= 0)%Z) ->
  Sorted nameOrder (processListing providerFilter defaults response profileMap).
Proof.
  intros Htotal. unfold processListing.
  apply Sorted_weaken with (R1 := fun a b => byName a b = true).
  - intros a b Hab. apply Z.leb_le, Hab.
  - apply toSorted_Sorted. intros a b. unfold byName. rewrite !Z.leb_le. apply Htotal.
Qed.

(** Every definition discovery returns has a non-empty id and a non-empty
    name, carries the resolved defaults and costs nothing. *)
Theorem processListing_definitions_wellformed
    (client : BedrockClient) (profileMap : gmap string string)
    (providerFilter : list string) (defaults : Defaults)
    (response : ListFoundationModelsOutput) (d : ModelDefinitionConfig) :
  buildInferenceProfileMap client = Some profileMap ->
  In d (processListing providerFilter defaults response profileMap) ->
  id d <> "" /\ name d <> "" /\
  contextWindow d = defContextWindow defaults /\
  maxTokens d = defMaxTokens defaults /\
  cost d = DEFAULT_COST.
Proof.
  intros Hmap Hd.
  apply list_elem_of_In in Hd. rewrite processListing_Permutation in Hd.
  pose proof (visitSummaries_wellFormed providerFilter defaults profileMap
                (orDefault (modelSummaries response) [])
                (buildInferenceProfileMap_nonEmpty client profileMap Hmap)) as Hall.
  rewrite Forall_forall in Hall. exact (Hall d Hd).
Qed.

(** The ids of the list discovery returns are the base ids of the included
    summaries together with the inference-profile ids of those that have
    one: each included model can be found under either. *)
Theorem processListing_ids
    (client : BedrockClient) (profileMap : gmap string string)
    (providerFilter : list string) (defaults : Defaults)
    (response : ListFoundationModelsOutput) (x : string) :
  buildInferenceProfileMap client = Some profileMap ->
  ((exists d, In d (processListing providerFilter defaults response profileMap) /\ id d = x) <->
   exists s, In s (orDefault (modelSummaries response) []) /\
             shouldIncludeSummary s providerFilter = true /\
             (x = baseIdOf s \/ profileMap !! baseIdOf s = Some x)).
Proof.
  intros Hmap.
  rewrite <- (visitSummaries_ids providerFilter defaults profileMap _ x
                (buildInferenceProfileMap_nonEmpty client profileMap Hmap)).
  rewrite elem_of_idsOf.
  split; intros (d & Hd & Hid); exists d; (split; [|exact Hid]);
    apply list_elem_of_In; apply list_elem_of_In in Hd.
  - rewrite <- processListing_Permutation. exact Hd.
  - rewrite processListing_Permutation. exact Hd.
Qed.

End WithHost.

End ResultMore.

(** ** Model discovery: the life of a cache entry *)

Module CacheMore.
Import JS JSFacts Discovery CacheSpec.

Section WithHost.
Context `{Host}.

Lemma lookupCache_answer st cacheKey now answer :
  lookupCache st cacheKey now = Some answer ->
  (exists v, answer = Returned v) \/ (exists p, answer = ReturnedPromise p).
Proof.
  unfold lookupCache.
  destruct (discoveryCache st !! cacheKey) as [c|]; [|discriminate].
  destruct (value c) as [v|]; [destruct (now <? expiresAt c)%Z|];
    try (intros [= <-]; eauto);
    destruct (inFlight c); intros [= <-]; eauto.
Qed.

(** What a call that starts a fetch leaves behind. *)
Lemma discover_awaiting dateNow params st st1 p k :
  discoverBedrockModels dateNow params st = (st1, Awaiting p k) ->
  p = length (promises st) /\
  k = {| kCacheKey := cacheKeyOf params;
         kNow := orDefault (now params) dateNow;
         kRefreshIntervalSeconds := refreshIntervalSecondsOf params |} /\
  listingsSent st1 = S (listingsSent st) /\
  hasLoggedBedrockError st1 = hasLoggedBedrockError st /\
  warnings st1 = warnings st /\
  (exists job, promises st1 = (promises st ++ [Pending job])%list) /\
  discoveryCache st1 =
    if (0 <? refreshIntervalSecondsOf params)%Z then
      <[cacheKeyOf params :=
          {| expiresAt := orDefault (now params) dateNow
                          + refreshIntervalSecondsOf params * 1000;
             value := None;
             inFlight := Some (length (promises st)) |}]> (discoveryCache st)
    else discoveryCache st.
Proof.
  unfold discoverBedrockModels. cbv zeta.
  destruct (if (0 <? refreshIntervalSecondsOf params)%Z
            then lookupCache st (cacheKeyOf params) (orDefault (now params) dateNow)
            else None) as [answer|] eqn:L.
  - intros [= <- ->]. exfalso.
    destruct (0 <? refreshIntervalSecondsOf params)%Z; [|discriminate].
    destruct (lookupCache_answer _ _ _ _ L) as [[v Hv]|[q Hq]]; discriminate.
  - intros [= <- <- <-]. cbn. repeat split. eexists. reflexivity.
Qed.

(** A value is served from the moment its fetch succeeds until the refresh
    interval has elapsed since the call that started the fetch; from then
    on a call starts a new fetch. *)
Theorem cached_value_served_until_expiry
    (dateNow1 dateNow2 : Z) (params1 params2 : Params) (st st1 resumed : State)
    (p : PromiseId) (k : Continuation) (v : list ModelDefinitionConfig) :
  (0 < refreshIntervalSecondsOf params1)%Z ->
  (0 < refreshIntervalSecondsOf params2)%Z ->
  cacheKeyOf params1 = cacheKeyOf params2 ->
  discoverBedrockModels dateNow1 params1 st = (st1, Awaiting p k) ->
  let expiry := (orDefault (now params1) dateNow1
                 + refreshIntervalSecondsOf params1 * 1000)%Z in
  let stored := (afterAwait k (Ok v) resumed).1 in
  ((orDefault (now params2) dateNow2 < expiry)%Z ->
   discoverBedrockModels dateNow2 params2 stored = (stored, Returned v)) /\
  ((expiry <= orDefault (now params2) dateNow2)%Z ->
   exists st3 k',
     discoverBedrockModels dateNow2 params2 stored
       = (st3, Awaiting (length (promises stored)) k') /\
     listingsSent st3 = S (listingsSent stored)).
Proof.
  intros Hpos1 Hpos2 Hkey Hfirst expiry stored.
  destruct (discover_awaiting _ _ _ _ _ _ Hfirst) as (_ & -> & _).
  assert (discoveryCache stored !! cacheKeyOf params2
          = Some {| expiresAt := expiry; value := Some v; inFlight := None |}) as Hentry.
  { subst stored. unfold afterAwait. cbn [kRefreshIntervalSeconds kCacheKey kNow].
    rewrite (proj2 (Z.ltb_lt _ _) Hpos1). cbn [fst withCache discoveryCache].
    rewrite Hkey. apply lookup_insert_eq. }
  split.
  - intros Hfresh. apply discover_answered; [exact Hpos2|].
    unfold lookupCache. rewrite Hentry. cbn [value expiresAt].
    rewrite (proj2 (Z.ltb_lt _ _) Hfresh). reflexivity.
  - intros Hexpired.
    destruct (discover_fetches dateNow2 params2 stored Hpos2) as [job ->].
    + unfold lookupCache. rewrite Hentry. cbn [value expiresAt inFlight].
      rewrite (proj2 (Z.ltb_ge _ _) Hexpired). reflexivity.
    + eauto.
Qed.

(** A failed fetch leaves nothing in the cache: the next call with the
    same key starts a new fetch. *)
Theorem failed_fetch_is_not_cached
    (dateNow1 dateNow2 : Z) (params1 params2 : Params) (st st1 resumed : State)
    (p : PromiseId) (k : Continuation) (e : Error) :
  (0 < refreshIntervalSecondsOf params1)%Z ->
  (0 < refreshIntervalSecondsOf params2)%Z ->
  cacheKeyOf params1 = cacheKeyOf params2 ->
  discoverBedrockModels dateNow1 params1 st = (st1, Awaiting p k) ->
  let failed := (afterAwait k (Throw e) resumed).1 in
  exists st3 k',
    discoverBedrockModels dateNow2 params2 failed
      = (st3, Awaiting (length (promises failed)) k') /\
    listingsSent st3 = S (listingsSent failed).
Proof.
  intros Hpos1 Hpos2 Hkey Hfirst failed.
  destruct (discover_awaiting _ _ _ _ _ _ Hfirst) as (_ & -> & _).
  destruct (discover_fetches dateNow2 params2 failed Hpos2) as [job ->]; [|eauto].
  unfold lookupCache.
  assert (discoveryCache failed !! cacheKeyOf params2 = None) as ->; [|reflexivity].
  rewrite <- Hkey.
  apply (proj2 (afterAwait_rejected
                  {| kCacheKey := cacheKeyOf params1;
                     kNow := orDefault (now params1) dateNow1;
                     kRefreshIntervalSeconds := refreshIntervalSecondsOf params1 |}
                  e resumed) Hpos1).
Qed.

(** A call, and the completion of its fetch, leave the cache entries of
    all other keys as they are. *)
Theorem other_cache_entries_untouched
    (dateNow : Z) (params : Params) (st : State) (k : Continuation)
    (outcome : Exc (list ModelDefinitionConfig)) (other : string) :
  (other <> cacheKeyOf params ->
   discoveryCache (discoverBedrockModels dateNow params st).1 !! other
   = discoveryCache st !! other) /\
  (other <> kCacheKey k ->
   discoveryCache (afterAwait k outcome st).1 !! other = discoveryCache st !! other).
Proof.
  split.
  - intros Hne. unfold discoverBedrockModels. cbv zeta.
    destruct (if (0 <? refreshIntervalSecondsOf params)%Z then _ else None); [reflexivity|].
    cbn [fst discoveryCache].
    destruct (0 <? refreshIntervalSecondsOf params)%Z; [|reflexivity].
    apply lookup_insert_ne. congruence.
  - intros Hne. unfold afterAwait.
    destruct outcome as [v|e]; destruct (0 <? kRefreshIntervalSeconds k)%Z;
      cbn [fst]; try reflexivity.
    + cbn [withCache discoveryCache]. apply lookup_insert_ne. congruence.
    + destruct (negb _); cbn [withCache discoveryCache];
        apply lookup_delete_ne; congruence.
    + destruct (negb _); reflexivity.
Qed.

(** *** What holds in every state the module can reach *)

(** The states reached from the initial one by calls, by promises
    settling, and by calls resuming after their [await]. *)
Inductive reachable : State -> Prop :=
| reach_initial : reachable initialState
| reach_call dateNow params st :
    reachable st -> reachable (discoverBedrockModels dateNow params st).1
| reach_settle p st st' outcome :
    reachable st -> settle p st = Some (st', outcome) -> reachable st'
| reach_resume k outcome st :
    reachable st -> reachable (afterAwait k outcome st).1.

Lemma discover_state dateNow params st :
  discoverBedrockModels dateNow params st = (st, (discoverBedrockModels dateNow params st).2) \/
  exists p k, discoverBedrockModels dateNow params st
              = ((discoverBedrockModels dateNow params st).1, Awaiting p k).
Proof.
  unfold discoverBedrockModels. cbv zeta.
  destruct (if (0 <? refreshIntervalSecondsOf params)%Z then _ else None);
    [left | right; eauto]; reflexivity.
Qed.

Lemma settle_state p st st' outcome :
  settle p st = Some (st', outcome) ->
  discoveryCache st' = discoveryCache st /\
  hasLoggedBedrockError st' = hasLoggedBedrockError st /\
  warnings st' = warnings st /\
  listingsSent st' = listingsSent st /\
  length (promises st') = length (promises st).
Proof.
  unfold settle. destruct (promises st !! p) as [[job|o]|]; try discriminate.
  destruct (runDiscovery job); [|discriminate].
  intros [= <- <-]. cbn. repeat split. apply length_insert.
Qed.

Lemma afterAwait_rejected_log k e st :
  hasLoggedBedrockError (afterAwait k (Throw e) st).1 = true /\
  warnings (afterAwait k (Throw e) st).1
  = if hasLoggedBedrockError st then warnings st else (warnings st ++ [e])%list.
Proof.
  unfold afterAwait.
  destruct (0 <? kRefreshIntervalSeconds k)%Z; cbn [withCache hasLoggedBedrockError];
    destruct (hasLoggedBedrockError st) eqn:F; cbn; rewrite ?F; split; reflexivity.
Qed.

(** The warning is logged at most once: as long as no failure has been
    met nothing is logged, and from the first failure on exactly one
    warning is. *)
Theorem warning_logged_at_most_once (st : State) :
  reachable st ->
  if hasLoggedBedrockError st then length (warnings st) = 1 else warnings st = [].
Proof.
  induction 1 as [|dateNow params st _ IH|p st st' outcome _ IH Hsettle|k outcome st _ IH].
  - reflexivity.
  - destruct (discover_state dateNow params st) as [->|(p & k & Hcall)]; [exact IH|].
    destruct (discover_awaiting _ _ _ _ _ _ Hcall) as (_ & _ & _ & -> & -> & _).
    exact IH.
  - destruct (settle_state _ _ _ _ Hsettle) as (_ & -> & -> & _). exact IH.
  - destruct outcome as [v|e].
    + unfold afterAwait. destruct (0 <? kRefreshIntervalSeconds k)%Z; exact IH.
    + destruct (afterAwait_rejected_log k e st) as [-> ->].
      destruct (hasLoggedBedrockError st); [exact IH|]. rewrite IH. reflexivity.
Qed.

(** The entries of the cache are well formed: an entry holds either a
    value, or the promise of a fetch that has been started, and never
    both. *)
Definition wellFormedEntry (st : State) (entry : BedrockDiscoveryCacheEntry) : Prop :=
  match value entry, inFlight entry with
  | Some _, None => True
  | None, Some p => p < length (promises st)
  | _, _ => False
  end.

Theorem cache_entries_wellformed (st : State) (cacheKey : string)
    (entry : BedrockDiscoveryCacheEntry) :
  reachable st ->
  discoveryCache st !! cacheKey = Some entry ->
  wellFormedEntry st entry /\ listingsSent st = length (promises st).
Proof.
  intros Hreach. revert cacheKey entry.
  assert ((forall cacheKey entry,
              discoveryCache st !! cacheKey = Some entry -> wellFormedEntry st entry) /\
          listingsSent st = length (promises st)) as [Hentries Hsent];
    [|intros cacheKey entry Hentry; split; [exact (Hentries _ _ Hentry) | exact Hsent]].
  induction Hreach as [|dateNow params st _ [IH IHs]|p st st' outcome _ [IH IHs] Hsettle
                       |k outcome st _ [IH IHs]].
  - split; [|reflexivity]. intros cacheKey entry.
    unfold initialState. cbn [discoveryCache]. rewrite lookup_empty. discriminate.
  - destruct (discover_state dateNow params st) as [->|(p & k & Hcall)]; [auto|].
    destruct (discover_awaiting _ _ _ _ _ _ Hcall) as (_ & _ & Hs & _ & _ & [job Hp] & Hc).
    assert (length (promises (discoverBedrockModels dateNow params st).1)
            = S (length (promises st))) as Hlen
      by (rewrite Hp, length_app; simpl; lia).
    split; [|rewrite Hs, Hlen, IHs; reflexivity].
    intros cacheKey entry. rewrite Hc.
    assert (forall e0, wellFormedEntry st e0 ->
                       wellFormedEntry (discoverBedrockModels dateNow params st).1 e0)
      as Hmono.
    { intros e0. unfold wellFormedEntry. rewrite Hlen.
      destruct (value e0), (inFlight e0); auto. }
    destruct (0 <? refreshIntervalSecondsOf params)%Z.
    + rewrite lookup_insert. case_decide.
      * intros [= <-]. unfold wellFormedEntry. cbn. rewrite Hlen. lia.
      * intros He. apply Hmono, (IH _ _ He).
    + intros He. apply Hmono, (IH _ _ He).
  - destruct (settle_state _ _ _ _ Hsettle) as (Hc & _ & _ & Hs & Hl).
    split; [|rewrite Hs, Hl; exact IHs].
    intros cacheKey entry. rewrite Hc. intros He.
    pose proof (IH _ _ He) as Hwf. unfold wellFormedEntry in *. rewrite Hl. exact Hwf.
  - assert (promises (afterAwait k outcome st).1 = promises st /\
            listingsSent (afterAwait k outcome st).1 = listingsSent st) as [Hp Hs].
    { unfold afterAwait. destruct outcome as [v|e];
        destruct (0 <? kRefreshIntervalSeconds k)%Z; cbn [fst];
        try (split; reflexivity); destruct (negb _); split; reflexivity. }
    split; [|rewrite Hs, Hp; exact IHs].
    assert (forall e0, wellFormedEntry st e0 -> wellFormedEntry (afterAwait k outcome st).1 e0)
      as Hmono by (intros e0; unfold wellFormedEntry; rewrite Hp; auto).
    intros cacheKey entry. unfold afterAwait.
    destruct outcome as [v|e]; destruct (0 <? kRefreshIntervalSeconds k)%Z; cbn [fst].
    + cbn [withCache discoveryCache]. rewrite lookup_insert. case_decide.
      * intros [= <-]. exact I.
      * intros He. unfold wellFormedEntry. cbn [promises withCache]. apply (IH _ _ He).
    + apply IH.
    + destruct (negb _); cbn [withCache discoveryCache];
        rewrite lookup_delete; case_decide; try discriminate;
        intros He; unfold wellFormedEntry; cbn [promises withCache]; apply (IH _ _ He).
    + destruct (negb _); cbn [discoveryCache]; intros He;
        unfold wellFormedEntry; cbn [promises]; apply (IH _ _ He).
Qed.

(** The reset empties the cache and re-arms the warning: whatever the
    state was, a call then starts a fetch, and a failure is logged again. *)
Theorem reset_clears_cache_and_flag
    (dateNow : Z) (params : Params) (st : State) (k : Continuation) (e : Error) :
  (exists st' k',
     discoverBedrockModels dateNow params (resetBedrockDiscoveryCacheForTest st)
     = (st', Awaiting (length (promises st)) k')) /\
  warnings (afterAwait k (Throw e) (resetBedrockDiscoveryCacheForTest st)).1
  = (warnings st ++ [e])%list.
Proof.
  split.
  - unfold discoverBedrockModels. cbv zeta.
    assert (lookupCache (resetBedrockDiscoveryCacheForTest st)
              (cacheKeyOf params) (orDefault (now params) dateNow) = None) as ->.
    { unfold lookupCache. cbn [resetBedrockDiscoveryCacheForTest discoveryCache].
      rewrite lookup_empty. reflexivity. }
    destruct (0 <? refreshIntervalSecondsOf params)%Z; eauto.
  - unfold afterAwait. destruct (0 <? kRefreshIntervalSeconds k)%Z; reflexivity.
Qed.

End WithHost.

End CacheMore.

(** ** Model discovery: the cache key is faithful *)

Module CacheKeyMore.
Import JS JSFacts JSMore Discovery CacheKeySpec.

Lemma append_prefix_or u v x y :
  u ++ x = v ++ y -> String.prefix u v = true \/ String.prefix v u = true.
Proof.
  revert v. induction u as [|c u IH]; intros v; [left; apply prefix_nil|].
  destruct v as [|d v]; [right; reflexivity|].
  rewrite !append_cons. intros [= -> Hrest]. simpl.
  destruct (ascii_dec d d) as [_|Hne]; [|congruence]. apply IH, Hrest.
Qed.

(** *** Strings *)

Lemma jsonEscapeChar_prefix_free c d :
  String.prefix (jsonEscapeChar c) (jsonEscapeChar d) = true -> c = d.
Proof.
  intros Hp. apply Ascii.eqb_eq.
  pose proof (forall_ascii2
                (fun c d => implb (String.prefix (jsonEscapeChar c) (jsonEscapeChar d))
                              (Ascii.eqb c d))) as Hall.
  specialize (Hall ltac:(vm_compute; reflexivity) c d). cbv beta in Hall.
  rewrite Hp in Hall. exact Hall.
Qed.

Lemma jsonEscapeChar_not_quote c :
  String.prefix dquote (jsonEscapeChar c) = false /\
  String.prefix (jsonEscapeChar c) dquote = false.
Proof.
  pose proof (forall_ascii
                (fun c => negb (String.prefix dquote (jsonEscapeChar c))
                          && negb (String.prefix (jsonEscapeChar c) dquote))) as Hall.
  specialize (Hall ltac:(vm_compute; reflexivity) c). cbv beta in Hall.
  apply andb_true_iff in Hall as [H1 H2].
  apply negb_true_iff in H1, H2. auto.
Qed.

(** An escaped string followed by a quote can be read back in one way. *)
Lemma jsonEscape_delimited a b x y :
  jsonEscape a ++ dquote ++ x = jsonEscape b ++ dquote ++ y -> a = b /\ x = y.
Proof.
  revert b. induction a as [|c a IH]; intros [|d b]; cbn [jsonEscape].
  - intros Hxy. split; [reflexivity | exact (append_cancel_l dquote _ _ Hxy)].
  - rewrite append_assoc. intros Hxy. exfalso.
    change ("" ++ dquote ++ x) with (dquote ++ x) in Hxy.
    destruct (jsonEscapeChar_not_quote d) as [H1 H2].
    destruct (append_prefix_or _ _ _ _ Hxy); congruence.
  - rewrite append_assoc. intros Hxy. exfalso.
    change ("" ++ dquote ++ y) with (dquote ++ y) in Hxy.
    destruct (jsonEscapeChar_not_quote c) as [H1 H2].
    destruct (append_prefix_or _ _ _ _ Hxy); congruence.
  - rewrite !append_assoc. intros Hxy.
    assert (c = d) as ->.
    { destruct (append_prefix_or _ _ _ _ Hxy) as [Hp|Hp];
        apply jsonEscapeChar_prefix_free in Hp; congruence. }
    apply append_cancel_l in Hxy. destruct (IH b Hxy) as [-> ->]. auto.
Qed.

Lemma jsonString_delimited a b x y :
  jsonString a ++ x = jsonString b ++ y -> a = b /\ x = y.
Proof.
  unfold jsonString. rewrite !append_assoc. intros Hxy.
  apply append_cancel_l in Hxy. exact (jsonEscape_delimited a b x y Hxy).
Qed.

Lemma jsonString_head e t :
  jsonString e ++ t = String (ascii_of_nat 34) (jsonEscape e ++ dquote ++ t).
Proof. unfold jsonString. rewrite !append_assoc. reflexivity. Qed.

(** *** Arrays of strings *)

(** What follows the first element of a joined array. *)
Definition joinTail (l : list string) (z : string) : string :=
  match l with
  | [] => z
  | _ => "," ++ jsonJoin (List.map jsonString l) ++ z
  end.

Lemma jsonJoin_cons e l z :
  jsonJoin (List.map jsonString (e :: l)) ++ z = jsonString e ++ joinTail l z.
Proof.
  destruct l as [|e' l]; [reflexivity|].
  cbn [List.map jsonJoin joinTail]. rewrite !append_assoc. reflexivity.
Qed.

Lemma jsonJoin_delimited l1 l2 x y :
  jsonJoin (List.map jsonString l1) ++ "]" ++ x
  = jsonJoin (List.map jsonString l2) ++ "]" ++ y ->
  l1 = l2 /\ x = y.
Proof.
  revert l2. induction l1 as [|e1 l1 IH]; intros [|e2 l2].
  - intros Hxy. split; [reflexivity | exact (append_cancel_l "]" _ _ Hxy)].
  - rewrite jsonJoin_cons, jsonString_head. discriminate.
  - rewrite jsonJoin_cons, jsonString_head. discriminate.
  - rewrite !jsonJoin_cons. intros Hxy.
    apply jsonString_delimited in Hxy as [-> Htail].
    destruct l1 as [|a1 l1], l2 as [|a2 l2]; cbn [joinTail] in Htail.
    + apply (append_cancel_l "]") in Htail. subst. auto.
    + discriminate.
    + discriminate.
    + apply (append_cancel_l ",") in Htail.
      destruct (IH (a2 :: l2) Htail) as [-> ->]. auto.
Qed.

Lemma jsonStringArray_delimited l1 l2 x y :
  jsonStringArray l1 ++ x = jsonStringArray l2 ++ y -> l1 = l2 /\ x = y.
Proof.
  unfold jsonStringArray. rewrite !append_assoc. intros Hxy.
  apply (append_cancel_l "[") in Hxy. exact (jsonJoin_delimited l1 l2 x y Hxy).
Qed.

(** *** Numbers *)

Definition isNumberChar (c : ascii) : bool :=
  let n := nat_of_ascii c in ((48 <=? n)%nat && (n <=? 57)%nat) || (n =? 45)%nat.

Fixpoint allNumberChars (s : string) : bool :=
  match s with
  | EmptyString => true
  | String c r => isNumberChar c && allNumberChars r
  end.

Lemma pretty_N_char_number n : isNumberChar (pretty_N_char n) = true.
Proof. unfold pretty_N_char. repeat case_match; reflexivity. Qed.

Lemma pretty_N_go_numberChars x s :
  allNumberChars s = true -> allNumberChars (pretty_N_go x s) = true.
Proof.
  revert s. induction (N.lt_wf_0 x) as [x _ IH]; intros s Hs.
  destruct (decide (0 < x)%N) as [Hpos|Hzero].
  - rewrite pretty_N_go_step by exact Hpos. apply IH.
    + apply N.div_lt; [exact Hpos | reflexivity].
    + simpl. rewrite pretty_N_char_number. exact Hs.
  - assert (x = 0%N) as -> by lia. rewrite pretty_N_go_0. exact Hs.
Qed.

Lemma pretty_positive_numberChars (x : positive) : allNumberChars (pretty x) = true.
Proof.
  unfold pretty, pretty_positive, pretty, pretty_N.
  destruct (decide (N.pos x = 0%N)); [reflexivity|].
  apply pretty_N_go_numberChars. reflexivity.
Qed.

Lemma pretty_Z_numberChars (z : Z) : allNumberChars (pretty z) = true.
Proof.
  destruct z as [|x|x]; [reflexivity | apply pretty_positive_numberChars |].
  change (pretty (Z.neg x)) with ("-" ++ pretty x).
  change (allNumberChars (String "-" (pretty x)) = true).
  simpl. apply pretty_positive_numberChars.
Qed.

Lemma numeric_delimited u v c x y :
  allNumberChars u = true -> allNumberChars v = true -> isNumberChar c = false ->
  u ++ String c x = v ++ String c y -> u = v /\ x = y.
Proof.
  intros Hu Hv Hc. revert v Hv.
  induction u as [|a u IH]; intros [|b v] Hv; rewrite ?append_cons.
  - intros [= Hxy]. auto.
  - intros [= -> _]. simpl in Hv. rewrite Hc in Hv. discriminate.
  - intros [= -> _]. simpl in Hu. rewrite Hc in Hu. discriminate.
  - intros [= -> Hrest]. simpl in Hu, Hv.
    apply andb_true_iff in Hu as [_ Hu]. apply andb_true_iff in Hv as [_ Hv].
    destruct (IH Hu v Hv Hrest) as [-> ->]. auto.
Qed.

Lemma pretty_Z_delimited (a b : Z) c x y :
  isNumberChar c = false ->
  pretty a ++ String c x = pretty b ++ String c y -> a = b /\ x = y.
Proof.
  intros Hc Hxy.
  destruct (numeric_delimited _ _ c x y (pretty_Z_numberChars a) (pretty_Z_numberChars b)
              Hc Hxy) as [Hp ->].
  split; [apply (inj pretty), Hp | reflexivity].
Qed.

(** *** The key *)

Lemma buildCacheKey_shape params :
  buildCacheKey params =
  "{" ++ jsonString "region" ++ ":" ++ jsonString (keyRegion params) ++
  "," ++ jsonString "providerFilter" ++ ":" ++ jsonStringArray (keyProviderFilter params) ++
  "," ++ jsonString "refreshIntervalSeconds" ++ ":"
      ++ pretty (keyRefreshIntervalSeconds params) ++
  String "," (jsonString "defaultContextWindow" ++ ":"
      ++ pretty (keyDefaultContextWindow params) ++
  String "," (jsonString "defaultMaxTokens" ++ ":"
      ++ pretty (keyDefaultMaxTokens params) ++ String "}" "")).
Proof.
  unfold buildCacheKey, jsonField. cbn [jsonJoin]. rewrite !append_assoc. reflexivity.
Qed.

(** Two tuples of parameters with the same cache key are the same tuple. *)
Lemma buildCacheKey_injective (params1 params2 : CacheKeyParams) :
  buildCacheKey params1 = buildCacheKey params2 -> params1 = params2.
Proof.
  rewrite !buildCacheKey_shape. intros Hkey.
  apply (append_cancel_l "{") in Hkey.
  apply jsonString_delimited in Hkey as [_ Hkey].
  apply (append_cancel_l ":") in Hkey.
  apply jsonString_delimited in Hkey as [Hregion Hkey].
  apply (append_cancel_l ",") in Hkey.
  apply jsonString_delimited in Hkey as [_ Hkey].
  apply (append_cancel_l ":") in Hkey.
  apply jsonStringArray_delimited in Hkey as [Hfilter Hkey].
  apply (append_cancel_l ",") in Hkey.
  apply jsonString_delimited in Hkey as [_ Hkey].
  apply (append_cancel_l ":") in Hkey.
  apply pretty_Z_delimited in Hkey as [Hrefresh Hkey]; [|reflexivity].
  apply jsonString_delimited in Hkey as [_ Hkey].
  apply (append_cancel_l ":") in Hkey.
  apply pretty_Z_delimited in Hkey as [Hwindow Hkey]; [|reflexivity].
  apply jsonString_delimited in Hkey as [_ Hkey].
  apply (append_cancel_l ":") in Hkey.
  apply pretty_Z_delimited in Hkey as [Htokens _]; [|reflexivity].
  destruct params1, params2. simpl in *. congruence.
Qed.

(** Two calls share a cache entry only when they agree on the region, on
    the normalised provider filter, on the refresh interval and on the two
    resolved defaults. *)
Theorem cacheKeyOf_determines_parameters (params1 params2 : Params) :
  cacheKeyOf params1 = cacheKeyOf params2 <->
  region params1 = region params2 /\
  providerFilterOf params1 = providerFilterOf params2 /\
  refreshIntervalSecondsOf params1 = refreshIntervalSecondsOf params2 /\
  resolveDefaultContextWindow (config params1) = resolveDefaultContextWindow (config params2) /\
  resolveDefaultMaxTokens (config params1) = resolveDefaultMaxTokens (config params2).
Proof.
  unfold cacheKeyOf. split.
  - intros Hkey%buildCacheKey_injective. injection Hkey. auto.
  - intros (-> & -> & -> & -> & ->). reflexivity.
Qed.

End CacheKeyMore.

(** ** The further properties on concrete runs *)

Module MoreScenarios.
Import JS JSFacts JSMore Embeddings Discovery FilterSpec FetchSpec CacheKeySpec CacheSpec.
Import Scenarios EmbeddingsMore ProfileMapMore ResultMore CacheMore CacheKeyMore.

Lemma embedBatch_all_or_nothing_witness :
  embedAll (fun t => Ok (JString t)) ["a"; "b"] = Ok [JString "a"; JString "b"].
Proof.
  apply (proj2 (proj1 (embedBatch_all_or_nothing (fun t => Ok (JString t)) ["a"; "b"]) _)).
  repeat constructor.
Defined.

(** Two profiles for one base model. *)
Definition claudeArn : string :=
  "arn:aws:bedrock:us-east-1::foundation-model/anthropic.claude-3-7-sonnet-20250219-v1:0".

Definition claudeBase : string := "anthropic.claude-3-7-sonnet-20250219-v1:0".

Definition euProfile : InferenceProfileSummary :=
  {| inferenceProfileId := Some "eu.anthropic.claude-3-7-sonnet-20250219-v1:0";
     models := Some [ {| modelArn := Some claudeArn |} ] |}.

Definition bothProfiles : ListInferenceProfilesOutput :=
  {| inferenceProfileSummaries := Some [euProfile; claudeProfile]; nextToken := None |}.

Lemma claudeArn_occurrence :
  firstOccurrence foundationModelMarker claudeArn "arn:aws:bedrock:us-east-1::" claudeBase.
Proof. apply firstOccurrence_intro; [reflexivity | vm_compute; reflexivity]. Qed.

Lemma recordModelRef_first_marker_witness :
  recordModelRef "us.profile" ∅ {| modelArn := Some claudeArn |}
  = <[claudeBase := "us.profile"]> ∅.
Proof.
  apply (proj2 (recordModelRef_first_marker "us.profile" ∅
                  {| modelArn := Some claudeArn |} claudeArn eq_refl)
           "arn:aws:bedrock:us-east-1::" claudeBase claudeArn_occurrence).
Defined.

Lemma later_profile_overrides_witness :
  fold_left recordPage [bothProfiles] ∅ !! claudeBase
  = Some (trim "us.anthropic.claude-3-7-sonnet-20250219-v1:0").
Proof.
  apply (later_profile_overrides [bothProfiles] ∅ [euProfile] [] claudeProfile
           "us.anthropic.claude-3-7-sonnet-20250219-v1:0" claudeBase).
  - reflexivity.
  - reflexivity.
  - reflexivity.
  - exists {| modelArn := Some claudeArn |}. split; [left; reflexivity|].
    exists "arn:aws:bedrock:us-east-1::", claudeBase.
    split; [exact claudeArn_occurrence|]. split; [reflexivity | discriminate].
  - intros q [].
Defined.

Lemma goodClient_map : buildInferenceProfileMap goodClient = Some claudeProfileMap.
Proof. vm_compute. reflexivity. Qed.

Lemma claudeProfileMap_lookup :
  claudeProfileMap !! claudeBase = Some "us.anthropic.claude-3-7-sonnet-20250219-v1:0".
Proof. vm_compute. reflexivity. Qed.

Lemma buildInferenceProfileMap_entries_witness :
  (claudeBase <> "" /\ noSurroundingWhiteSpace claudeBase = true) /\
  ("us.anthropic.claude-3-7-sonnet-20250219-v1:0" <> "" /\
   noSurroundingWhiteSpace "us.anthropic.claude-3-7-sonnet-20250219-v1:0" = true).
Proof.
  apply (buildInferenceProfileMap_entries goodClient claudeProfileMap claudeBase
           "us.anthropic.claude-3-7-sonnet-20250219-v1:0"
           goodClient_map claudeProfileMap_lookup).
Defined.

(** A client that answers two pages and would fail on a third request. *)
Definition twoPageClient : BedrockClient :=
  {| listFoundationModels := Ok listing;
     listInferenceProfiles := [Ok firstPage; Ok lastPage; Throw outage] |}.

Lemma buildInferenceProfileMap_pagination_witness :
  buildInferenceProfileMap twoPageClient
  = Some (fold_left recordPage ([firstPage] ++ [lastPage]) ∅).
Proof.
  apply (buildInferenceProfileMap_pagination twoPageClient [firstPage] lastPage
           [Throw outage]).
  - repeat constructor. exists "page-2". split; [reflexivity | discriminate].
  - left. reflexivity.
  - reflexivity.
Defined.

Lemma sampleHost_total (a b : string) :
  (@localeCompare sampleHost a b <= 0)%Z \/ (@localeCompare sampleHost b a <= 0)%Z.
Proof.
  cbn. rewrite (String.compare_antisym b a).
  destruct (String.compare a b); cbn; lia.
Qed.

Lemma processListing_sorted_by_name_witness :
  Sorted (@nameOrder sampleHost)
    (@processListing sampleHost [] sampleDefaults listing claudeProfileMap).
Proof.
  apply (@processListing_sorted_by_name sampleHost [] sampleDefaults listing
           claudeProfileMap sampleHost_total).
Defined.

Lemma processListing_definitions_wellformed_witness :
  let d := toModelDefinition claudeSummary sampleDefaults None in
  id d <> "" /\ name d <> "" /\
  contextWindow d = defContextWindow sampleDefaults /\
  maxTokens d = defMaxTokens sampleDefaults /\
  cost d = DEFAULT_COST.
Proof.
  apply (@processListing_definitions_wellformed sampleHost goodClient claudeProfileMap
           [] sampleDefaults listing (toModelDefinition claudeSummary sampleDefaults None)
           goodClient_map).
  vm_compute. right. left. reflexivity.
Defined.

Lemma processListing_ids_witness :
  exists d,
    In d (@processListing sampleHost [] sampleDefaults listing claudeProfileMap) /\
    id d = claudeBase.
Proof.
  apply (proj2 (@processListing_ids sampleHost goodClient claudeProfileMap
                  [] sampleDefaults listing claudeBase goodClient_map)).
  exists claudeSummary. split; [left; reflexivity|].
  split; [reflexivity | left; reflexivity].
Defined.

(** The state once the fetch against [goodClient] has succeeded and its
    call has stored the value. *)
Definition stored : State :=
  (afterAwait firstContinuation (Ok discoveredModels) (fetching goodClient)).1.

Lemma cached_value_served_until_expiry_witness :
  @discoverBedrockModels sampleHost 0 (callAt 3600999 goodClient) stored
  = (stored, Returned discoveredModels).
Proof.
  apply (proj1 (@cached_value_served_until_expiry sampleHost 0 0
                  (callAt 1000 goodClient) (callAt 3600999 goodClient)
                  initialState (fetching goodClient) (fetching goodClient)
                  0 firstContinuation discoveredModels
                  eq_refl eq_refl eq_refl (first_call_fetches goodClient))).
  reflexivity.
Defined.

Lemma failed_fetch_is_not_cached_witness :
  exists st3 k',
    @discoverBedrockModels sampleHost 0 (callAt 2000 failingClient)
      (afterAwait firstContinuation (Throw outage) rejected).1
    = (st3, Awaiting (length (promises (afterAwait firstContinuation (Throw outage) rejected).1)) k') /\
    listingsSent st3
    = S (listingsSent (afterAwait firstContinuation (Throw outage) rejected).1).
Proof.
  apply (@failed_fetch_is_not_cached sampleHost 0 0
           (callAt 1000 failingClient) (callAt 2000 failingClient)
           initialState (fetching failingClient) rejected
           0 firstContinuation outage
           eq_refl eq_refl eq_refl (first_call_fetches failingClient)).
Defined.

Definition otherRegion : Params :=
  {| region := "eu-west-1"; config := None; now := Some 2000%Z;
     clientFactory := Some (fun _ => goodClient) |}.

Lemma otherRegion_key : firstKey <> cacheKeyOf otherRegion.
Proof. intros Heq. vm_compute in Heq. discriminate. Qed.

Lemma other_cache_entries_untouched_witness :
  discoveryCache (@discoverBedrockModels sampleHost 0 otherRegion fresh).1 !! firstKey
  = discoveryCache fresh !! firstKey.
Proof.
  apply (proj1 (@other_cache_entries_untouched sampleHost 0 otherRegion fresh
                  firstContinuation (Ok []) firstKey)).
  exact otherRegion_key.
Defined.

Lemma reachable_rejected :
  @reachable sampleHost (afterAwait firstContinuation (Throw outage) rejected).1.
Proof.
  apply reach_resume.
  apply (reach_settle 0 (fetching failingClient) rejected (Throw outage));
    [|exact listing_fails].
  apply (reach_call 0 (callAt 1000 failingClient) initialState), reach_initial.
Qed.

Lemma warning_logged_at_most_once_witness :
  let st := (afterAwait firstContinuation (Throw outage) rejected).1 in
  if hasLoggedBedrockError st then length (warnings st) = 1 else warnings st = [].
Proof.
  apply (@warning_logged_at_most_once sampleHost _ reachable_rejected).
Defined.

Lemma reachable_fresh : @reachable sampleHost fresh.
Proof.
  unfold fresh.
  destruct (@settle sampleHost 0 (fetching goodClient)) as [[st outcome]|] eqn:E.
  - apply reach_resume. apply (reach_settle 0 (fetching goodClient) st outcome); [|exact E].
    apply (reach_call 0 (callAt 1000 goodClient) initialState), reach_initial.
  - apply (reach_call 0 (callAt 1000 goodClient) initialState), reach_initial.
Qed.

Lemma cache_entries_wellformed_witness :
  wellFormedEntry fresh freshEntry /\ listingsSent fresh = length (promises fresh).
Proof.
  apply (@cache_entries_wellformed sampleHost fresh firstKey freshEntry
           reachable_fresh fresh_entry).
Defined.

Lemma cacheKeyOf_determines_parameters_witness :
  region (callAt 1000 goodClient) = region (callAt 1500 failingClient).
Proof.
  apply (proj1 (cacheKeyOf_determines_parameters
                  (callAt 1000 goodClient) (callAt 1500 failingClient))).
  reflexivity.
Defined.

End MoreScenarios.
